(** * OpenAI client adapter of trae-agent: a shallow embedding

    Source: [src/trae_agent/utils/openai_client.py], class [OpenAIClient].

    The embedding follows the Python text function by function:
    - [parse_tool_call_result], [parse_tool_call], [parse_messages]
      (translation of agent messages to the provider's input items);
    - [supports_tool_calling] (static capability table);
    - [chat] (history merge, bounded retry loop, history update, response
      decomposition, trajectory recording), written in a small
      state-and-exception monad whose state is the client object together
      with the log of externally visible effects (requests, sleeps).

    Conventions.
    - A Python [str] is a [string]; a character is read as the code point
      of its number (0..255).
    - [Optional[T]] is [option T]; [openai.NOT_GIVEN] is [None] in a
      request field.
    - [json.loads] / [json.dumps] belong to the Python library, not to this
      repository: they enter through the interface [JsonLib].
    - The provider call, [random.randint] and [time.sleep] are effects: the
      first two read a [World], the first and last are logged. *)

From Stdlib Require Import List String Ascii Bool Arith ZArith Lia Setoid.
From Stdlib Require Import DecimalString.
From Stdlib Require Import Floats.PrimFloat.
Import ListNotations.

Local Open Scope string_scope.
Local Open Scope list_scope.

(** [s +++ t] is Python's [s + t] on strings; [++] stays list append. *)
Infix "+++" := String.append (right associativity, at level 60).

(* ================================================================== *)
(** ** Python string primitives used by the client *)
(* ================================================================== *)

Module PyStr.

(** [needle in hay] for two [str] values. *)
Fixpoint str_in (needle hay : string) : bool :=
  if String.prefix needle hay then true
  else match hay with
       | EmptyString => false
       | String _ rest => str_in needle rest
       end.

(** The declarative reading of "[hay] contains the substring [needle]". *)
Definition Contains (needle hay : string) : Prop :=
  exists pre post, hay = pre +++ needle +++ post.

(** [str.isspace] on one character with code point below 256:
    TAB..CR, FS..US, SPACE, NEL (0x85) and NBSP (0xA0). *)
Definition isspace (c : ascii) : bool :=
  let n := nat_of_ascii c in
  (((9 <=? n) && (n <=? 13)) || ((28 <=? n) && (n <=? 32))
   || (n =? 133) || (n =? 160))%nat.

Fixpoint lstrip (s : string) : string :=
  match s with
  | EmptyString => EmptyString
  | String c rest => if isspace c then lstrip rest else s
  end.

Fixpoint rstrip (s : string) : string :=
  match s with
  | EmptyString => EmptyString
  | String c rest =>
      match rstrip rest with
      | EmptyString => if isspace c then EmptyString else String c EmptyString
      | kept => String c kept
      end
  end.

(** [s.strip()] with no argument. *)
Definition strip (s : string) : string := rstrip (lstrip s).

(** Truthiness of a [str]: non-empty. *)
Definition truthy (s : string) : bool :=
  match s with EmptyString => false | _ => true end.

(** Truthiness of an [Optional[str]]: neither [None] nor empty. *)
Definition opt_truthy (o : option string) : bool :=
  match o with Some s => truthy s | None => false end.

(** [str(n)] for a non-negative [int]. *)
Definition str_of_nat (n : nat) : string :=
  NilEmpty.string_of_uint (Nat.to_uint n).

(** ["".join(parts)]. *)
Definition join (parts : list string) : string :=
  fold_right String.append EmptyString parts.

Definition first_char (s : string) : option ascii :=
  match s with EmptyString => None | String c _ => Some c end.

Fixpoint last_char (s : string) : option ascii :=
  match s with
  | EmptyString => None
  | String c EmptyString => Some c
  | String _ rest => last_char rest
  end.

(** No whitespace at either end (vacuous for the empty string). *)
Definition trimmed (s : string) : Prop :=
  (forall c, first_char s = Some c -> isspace c = false) /\
  (forall c, last_char s = Some c -> isspace c = false).

End PyStr.
Import PyStr.

(* ================================================================== *)
(** ** The JSON library, as the client sees it *)
(* ================================================================== *)

(** [json.loads] raises [json.JSONDecodeError] on a malformed document
    ([None] here); [json.dumps] is applied to argument mappings only, which
    are taken to be serialisable. [empty_dict] is the literal [{}]. *)
Class JsonLib : Type := {
  JSON : Type;
  json_loads : string -> option JSON;
  json_dumps : JSON -> string;
  empty_dict : JSON
}.

(* ================================================================== *)
(** ** Data model *)
(* ================================================================== *)

(** Exceptions the client lets escape. The three [ValueError]s of the
    source differ by their message. [json.JSONDecodeError], which Python
    declares as a subclass of [ValueError], is kept apart from them. *)
Inductive Exception : Type :=
| ValueError (msg : string)
| JSONDecodeError (doc : string).

Inductive Raises (A : Type) : Type :=
| Return (a : A)
| Raise (e : Exception).
Arguments Return {A} a.
Arguments Raise {A} e.

Section Model.

Context {J : JsonLib}.

(** [tools/base.py]: [ToolCall], [ToolResult], and what the client reads
    of a [Tool]. *)
Record ToolCall : Type := {
  tc_name : string;
  tc_call_id : string;
  tc_arguments : JSON;
  tc_id : option string
}.

Record ToolResult : Type := {
  tr_call_id : string;
  tr_success : bool;
  tr_result : option string;
  tr_error : option string;
  tr_id : option string
}.

Record Tool : Type := {
  tool_name : string;
  tool_description : string;
  tool_input_schema : JSON
}.

(** [utils/llm_basics.py]: [LLMMessage], [LLMUsage], [LLMResponse]. *)
Record LLMMessage : Type := {
  role : string;
  content : option string;
  tool_call : option ToolCall;
  tool_result : option ToolResult
}.

Record LLMUsage : Type := {
  input_tokens : Z;
  output_tokens : Z;
  cache_read_input_tokens : Z;
  reasoning_tokens : Z
}.

Record LLMResponse : Type := {
  resp_content : string;
  resp_usage : option LLMUsage;
  resp_model : string;
  resp_finish_reason : option string;
  resp_tool_calls : option (list ToolCall)
}.

(** [utils/config.py]: [ModelParameters], the fields the client reads. *)
Record ModelParameters : Type := {
  model : string;
  temperature : float;
  top_p : float;
  max_tokens : Z;
  max_retries : Z
}.

(** Provider response ([openai.types.responses.Response]). A content
    block of a message is an output text or a refusal; an output block is
    a function call, a message, or an item of another type (reasoning,
    web search call, ...), which the client skips. *)
Inductive ContentBlock : Type :=
| OutputText (text : string)
| Refusal (refusal : string).

Inductive OutputBlock : Type :=
| FunctionCallBlock (call_id name arguments : string) (id : option string)
| MessageBlock (blocks : list ContentBlock)
| OtherBlock (type : string).

Record ResponseUsage : Type := {
  ru_input_tokens : Z;
  ru_output_tokens : Z;
  ru_cached_tokens : Z;       (* usage.input_tokens_details.cached_tokens *)
  ru_reasoning_tokens : Z     (* usage.output_tokens_details.reasoning_tokens *)
}.

Record Response : Type := {
  output : list OutputBlock;
  usage : option ResponseUsage;
  response_model : string;
  status : option string
}.

(** Items of a [ResponseInputParam]. The stored history mixes the items
    the client built with the output blocks the provider returned
    ([api_call_input + response.output]). *)
Inductive WireItem : Type :=
| EasyMessage (role content : string)
| FunctionCallParam (call_id name arguments : string)
| FunctionCallOutput (call_id output : string)
| OutputItem (block : OutputBlock).

Record FunctionToolParam : Type := {
  ftp_name : string;
  ftp_description : string;
  ftp_parameters : JSON;
  ftp_strict : bool
}.

(** The keyword arguments of [client.responses.create]. *)
Record Request : Type := {
  req_input : list WireItem;
  req_model : string;
  req_tools : option (list FunctionToolParam);
  req_temperature : option float;
  req_top_p : float;
  req_max_output_tokens : Z
}.

(* ---------------------------------------------------------------- *)
(** *** Outbound translation *)
(* ---------------------------------------------------------------- *)

(** [parse_tool_call_result]: the three statements on [result_content],
    then the item. [str(result)] is the identity on a [str]. *)
Definition tool_result_content (tool_call_result : ToolResult) : string :=
  let result_content := "" in
  let result_content :=
    match tr_result tool_call_result with
    | Some r => result_content +++ r
    | None => result_content
    end in
  let result_content :=
    match tr_error tool_call_result with
    | Some e => if truthy e
                then result_content +++ (String "010" "Error: " +++ e)
                else result_content
    | None => result_content
    end in
  strip result_content.

Definition parse_tool_call_result (tool_call_result : ToolResult) : WireItem :=
  FunctionCallOutput (tr_call_id tool_call_result)
                     (tool_result_content tool_call_result).

(** [parse_tool_call]. *)
Definition parse_tool_call (tc : ToolCall) : WireItem :=
  FunctionCallParam (tc_call_id tc) (tc_name tc) (json_dumps (tc_arguments tc)).

(** The body of the loop of [parse_messages], for one message. *)
Definition parse_message (msg : LLMMessage) : Raises WireItem :=
  match tool_result msg with
  | Some tr => Return (parse_tool_call_result tr)
  | None =>
      match tool_call msg with
      | Some tc => Return (parse_tool_call tc)
      | None =>
          if negb (opt_truthy (content msg))
          then Raise (ValueError "Message content is required")
          else
            let text := match content msg with Some c => c | None => "" end in
            if (role msg =? "system")%string then Return (EasyMessage "system" text)
            else if (role msg =? "user")%string then Return (EasyMessage "user" text)
            else if (role msg =? "assistant")%string
                 then Return (EasyMessage "assistant" text)
            else Raise (ValueError ("Invalid message role: " +++ role msg))
      end
  end.

(** [parse_messages]: items are appended in order; the first offending
    message aborts the whole translation. *)
Fixpoint parse_messages_from (openai_messages : list WireItem)
         (messages : list LLMMessage) : Raises (list WireItem) :=
  match messages with
  | [] => Return openai_messages
  | msg :: rest =>
      match parse_message msg with
      | Return item => parse_messages_from (openai_messages ++ [item]) rest
      | Raise e => Raise e
      end
  end.

Definition parse_messages (messages : list LLMMessage) : Raises (list WireItem) :=
  parse_messages_from [] messages.

(* ---------------------------------------------------------------- *)
(** *** Capability table *)
(* ---------------------------------------------------------------- *)

Definition tool_capable_models : list string :=
  [ "gpt-4-turbo"; "gpt-4o"; "gpt-4o-mini"; "gpt-4.1"; "gpt-4.5";
    "o1"; "o3"; "o3-mini"; "o4-mini" ].

Definition supports_tool_calling (model_parameters : ModelParameters) : bool :=
  if str_in "o1-mini" (model model_parameters) then false
  else existsb (fun m => str_in m (model model_parameters)) tool_capable_models.

(* ---------------------------------------------------------------- *)
(** *** The client object, the outside world, and the effect monad *)
(* ---------------------------------------------------------------- *)

(** One call of [trajectory_recorder.record_llm_interaction]. *)
Record TrajectoryEntry : Type := {
  te_messages : list LLMMessage;
  te_response : LLMResponse;
  te_provider : string;
  te_model : string;
  te_tools : option (list Tool)
}.

(** The attributes of [self] that [chat] reads or writes. A recorder, when
    there is one, is the list of the entries it has received. *)
Record OpenAIClient : Type := {
  message_history : list WireItem;
  trajectory_recorder : option (list TrajectoryEntry)
}.

(** What one [client.responses.create] call does: it returns a response or
    raises an [Exception] [e], of which the client keeps [str(e)]. *)
Inductive CallOutcome : Type :=
| Succeeds (response : Response)
| Fails (str_e : string).

(** The world of one [chat] call: the outcome of the network call of loop
    index [i] on a given request, and the entropy behind the [i]-th
    [random.randint]. *)
Record World : Type := {
  responses_create : nat -> Request -> CallOutcome;
  entropy : nat -> nat
}.

(** [random.randint(3, 30)]: uniform on the closed interval. *)
Definition randint_3_30 (w : World) (i : nat) : Z :=
  3 + Z.of_nat (entropy w i mod 28).

Inductive Event : Type :=
| EvCreate (req : Request) (outcome : CallOutcome)
| EvSleep (seconds : Z).

Record Sys : Type := {
  self : OpenAIClient;
  effects : list Event
}.

Definition M (A : Type) : Type := Sys -> Raises A * Sys.

Definition ret {A} (a : A) : M A := fun s => (Return a, s).
Definition raise {A} (e : Exception) : M A := fun s => (Raise e, s).
Definition bind {A B} (m : M A) (k : A -> M B) : M B :=
  fun s => match m s with
           | (Return a, s') => k a s'
           | (Raise e, s') => (Raise e, s')
           end.
Definition lift {A} (r : Raises A) : M A := fun s => (r, s).

Definition emit (ev : Event) : M unit :=
  fun s => (Return tt, {| self := self s; effects := effects s ++ [ev] |}).

Definition get_message_history : M (list WireItem) :=
  fun s => (Return (message_history (self s)), s).

Definition set_message_history (h : list WireItem) : M unit :=
  fun s => (Return tt,
            {| self := {| message_history := h;
                          trajectory_recorder := trajectory_recorder (self s) |};
               effects := effects s |}).

(** [if self.trajectory_recorder: self.trajectory_recorder.record_llm_interaction(...)] *)
Definition record_llm_interaction (entry : TrajectoryEntry) : M unit :=
  fun s => match trajectory_recorder (self s) with
           | Some entries =>
               (Return tt,
                {| self := {| message_history := message_history (self s);
                              trajectory_recorder := Some (entries ++ [entry]) |};
                   effects := effects s |})
           | None => (Return tt, s)
           end.

Definition create (w : World) (i : nat) (req : Request) : M CallOutcome :=
  fun s => let o := responses_create w i req in
           (Return o, {| self := self s; effects := effects s ++ [EvCreate req o] |}).

Definition time_sleep (seconds : Z) : M unit := emit (EvSleep seconds).

End Model.

Declare Scope py_scope.
Delimit Scope py_scope with py.
Notation "x <- m ;; k" := (bind m (fun x => k))
  (at level 100, m at next level, right associativity) : py_scope.
Notation "m ;;; k" := (bind m (fun _ => k))
  (at level 100, right associativity) : py_scope.

Section Chat.

Context {J : JsonLib}.
Local Open Scope py_scope.

Definition NEWLINE : string := String "010" "".

(** [f"Error {i + 1}: {str(e)}\n"] *)
Definition error_line (i : nat) (str_e : string) : string :=
  "Error " +++ str_of_nat (i + 1) +++ ": " +++ str_e +++ NEWLINE.

(** [for i in range(max_retries): try: ... break / except Exception as e: ...]
    over the indices still to run. The result is [(response, error_message)]
    as they stand after the loop. *)
Fixpoint retry_loop (w : World) (req : Request) (indices : list nat)
         (error_message : string) : M (option Response * string) :=
  match indices with
  | [] => ret (None, error_message)
  | i :: rest =>
      o <- create w i req ;;
      match o with
      | Succeeds response => ret (Some response, error_message)
      | Fails str_e =>
          let error_message := error_message +++ error_line i str_e in
          time_sleep (randint_3_30 w i) ;;;
          retry_loop w req rest error_message
      end
  end.

Definition output_texts (blocks : list ContentBlock) : list string :=
  flat_map (fun cb => match cb with
                      | OutputText text => [text]
                      | Refusal _ => []
                      end) blocks.

(** [for output_block in response.output: ...] on the pair
    [(content, tool_calls)]. *)
Fixpoint decode_output (blocks : list OutputBlock)
         (content : string) (tool_calls : list ToolCall)
  : Raises (string * list ToolCall) :=
  match blocks with
  | [] => Return (content, tool_calls)
  | FunctionCallBlock call_id name arguments id :: rest =>
      if truthy arguments then
        match json_loads arguments with
        | Some args =>
            decode_output rest content
              (tool_calls ++ [{| tc_name := name; tc_call_id := call_id;
                                 tc_arguments := args; tc_id := id |}])
        | None => Raise (JSONDecodeError arguments)
        end
      else
        decode_output rest content
          (tool_calls ++ [{| tc_name := name; tc_call_id := call_id;
                             tc_arguments := empty_dict; tc_id := id |}])
  | MessageBlock blocks' :: rest =>
      decode_output rest (join (output_texts blocks')) tool_calls
  | OtherBlock _ :: rest => decode_output rest content tool_calls
  end.

Definition tool_schema (tool : Tool) : FunctionToolParam :=
  {| ftp_name := tool_name tool;
     ftp_description := tool_description tool;
     ftp_parameters := tool_input_schema tool;
     ftp_strict := true |}.

(** [tool_schemas], then [tool_schemas if tool_schemas else NOT_GIVEN]:
    [None] and the empty list are both falsy. *)
Definition request_tools (tools : option (list Tool))
  : option (list FunctionToolParam) :=
  match tools with
  | Some ((_ :: _) as ts) => Some (map tool_schema ts)
  | _ => None
  end.

Definition request_temperature (model_parameters : ModelParameters)
  : option float :=
  if negb (str_in "o3" (model model_parameters))
     && negb (str_in "o4-mini" (model model_parameters))
  then Some (temperature model_parameters)
  else None.

Definition llm_usage (u : ResponseUsage) : LLMUsage :=
  {| input_tokens := ru_input_tokens u;
     output_tokens := ru_output_tokens u;
     cache_read_input_tokens := ru_cached_tokens u;
     reasoning_tokens := ru_reasoning_tokens u |}.

(** The keyword arguments of the [create] call, the same at every attempt. *)
Definition make_request (api_call_input : list WireItem)
           (model_parameters : ModelParameters) (tools : option (list Tool))
  : Request :=
  {| req_input := api_call_input;
     req_model := model model_parameters;
     req_tools := request_tools tools;
     req_temperature := request_temperature model_parameters;
     req_top_p := top_p model_parameters;
     req_max_output_tokens := max_tokens model_parameters |}.

(** [range(n)] for an [int] [n]: empty when [n <= 0]. *)
Definition range (n : Z) : list nat := seq 0 (Z.to_nat n).

(** [usage], then [LLMResponse(content=..., usage=..., model=...,
    finish_reason=..., tool_calls=tool_calls if len(tool_calls) > 0 else None)]. *)
Definition make_llm_response (response : Response) (content : string)
           (tool_calls : list ToolCall) : LLMResponse :=
  {| resp_content := content;
     resp_usage := option_map llm_usage (usage response);
     resp_model := response_model response;
     resp_finish_reason := status response;
     resp_tool_calls :=
       match tool_calls with [] => None | _ :: _ => Some tool_calls end |}.

Definition FAILED_PREFIX : string :=
  "Failed to get response from OpenAI after max retries: ".

(** [OpenAIClient.chat]. *)
Definition chat (w : World) (messages : list LLMMessage)
           (model_parameters : ModelParameters)
           (tools : option (list Tool)) (reuse_history : bool)
  : M LLMResponse :=
  openai_messages <- lift (parse_messages messages) ;;
  history <- get_message_history ;;
  let api_call_input :=
    (if reuse_history then history else []) ++ openai_messages in
  looped <- retry_loop w (make_request api_call_input model_parameters tools)
              (range (max_retries model_parameters)) "" ;;
  match looped with
  | (None, error_message) =>
      raise (ValueError (FAILED_PREFIX +++ error_message))
  | (Some response, _) =>
      set_message_history (api_call_input ++ map OutputItem (output response)) ;;;
      decoded <- lift (decode_output (output response) "" []) ;;
      let '(content, tool_calls) := decoded in
      let llm_response := make_llm_response response content tool_calls in
      record_llm_interaction
        {| te_messages := messages; te_response := llm_response;
           te_provider := "openai"; te_model := model model_parameters;
           te_tools := tools |} ;;;
      ret llm_response
  end.

(** [OpenAIClient.set_chat_history]. *)
Definition set_chat_history (messages : list LLMMessage) : M unit :=
  h <- lift (parse_messages messages) ;;
  set_message_history h.

End Chat.

(* ================================================================== *)
(** ** Vocabulary of the statements *)
(* ================================================================== *)

Section Vocabulary.

Context {J : JsonLib}.

(** Every character of [s] is whitespace. *)
Fixpoint all_space (s : string) : bool :=
  match s with
  | EmptyString => true
  | String c rest => isspace c && all_space rest
  end.

(** Attempt [i] (loop index, from 0) raises. *)
Definition fails_at (w : World) (req : Request) (i : nat) : Prop :=
  exists str_e, responses_create w i req = Fails str_e.

Definition failure_text (w : World) (req : Request) (i : nat) : string :=
  match responses_create w i req with
  | Fails str_e => str_e
  | Succeeds _ => ""
  end.

(** The diagnostic lines of the attempts [indices], in that order. *)
Definition diagnostics (w : World) (req : Request) (indices : list nat) : string :=
  join (map (fun i => error_line i (failure_text w req i)) indices).

(** What a failed attempt leaves in the log: the call, then the sleep. *)
Definition failed_round (w : World) (req : Request) (i : nat) : list Event :=
  [EvCreate req (responses_create w i req); EvSleep (randint_3_30 w i)].

Definition failed_rounds (w : World) (req : Request) (indices : list nat) : list Event :=
  flat_map (failed_round w req) indices.

Definition log_more (s : Sys) (evs : list Event) : Sys :=
  {| self := self s; effects := effects s ++ evs |}.

Definition count_sleeps (evs : list Event) : nat :=
  List.length (filter (fun ev => match ev with EvSleep _ => true | _ => false end) evs).

Definition count_creates (evs : list Event) : nat :=
  List.length (filter (fun ev => match ev with EvCreate _ _ => true | _ => false end) evs).

(** The wire input of a call: [api_call_input] once both [extend]s ran. *)
Definition sent_input (s : Sys) (reuse_history : bool) (wire : list WireItem)
  : list WireItem :=
  (if reuse_history then message_history (self s) else []) ++ wire.

Definition with_history (s : Sys) (h : list WireItem) : Sys :=
  snd (set_message_history h s).

Definition recorded (s : Sys) (entry : TrajectoryEntry) : Sys :=
  snd (record_llm_interaction entry s).

Definition entry_of (messages : list LLMMessage) (resp : LLMResponse)
           (mp : ModelParameters) (tools : option (list Tool)) : TrajectoryEntry :=
  {| te_messages := messages; te_response := resp; te_provider := "openai";
     te_model := model mp; te_tools := tools |}.

(** The four ways a call of [chat] ends. *)
Inductive ChatRun (w : World) (messages : list LLMMessage)
          (mp : ModelParameters) (tools : option (list Tool))
          (reuse_history : bool) (s : Sys)
  : Raises LLMResponse * Sys -> Prop :=
| run_invalid_message (e : Exception) :
    parse_messages messages = Raise e ->
    ChatRun w messages mp tools reuse_history s (Raise e, s)
| run_exhausted (wire : list WireItem) (req : Request) :
    parse_messages messages = Return wire ->
    req = make_request (sent_input s reuse_history wire) mp tools ->
    Forall (fails_at w req) (range (max_retries mp)) ->
    ChatRun w messages mp tools reuse_history s
      (Raise (ValueError
                (FAILED_PREFIX +++ diagnostics w req (range (max_retries mp)))),
       log_more s (failed_rounds w req (range (max_retries mp))))
| run_undecodable (wire : list WireItem) (req : Request)
                  (pre post : list nat) (k : nat) (r : Response) (e : Exception) :
    parse_messages messages = Return wire ->
    req = make_request (sent_input s reuse_history wire) mp tools ->
    range (max_retries mp) = pre ++ k :: post ->
    Forall (fails_at w req) pre ->
    responses_create w k req = Succeeds r ->
    decode_output (output r) "" [] = Raise e ->
    ChatRun w messages mp tools reuse_history s
      (Raise e,
       with_history
         (log_more s (failed_rounds w req pre ++ [EvCreate req (Succeeds r)]))
         (sent_input s reuse_history wire ++ map OutputItem (output r)))
| run_returns (wire : list WireItem) (req : Request)
              (pre post : list nat) (k : nat) (r : Response)
              (content : string) (tool_calls : list ToolCall) :
    parse_messages messages = Return wire ->
    req = make_request (sent_input s reuse_history wire) mp tools ->
    range (max_retries mp) = pre ++ k :: post ->
    Forall (fails_at w req) pre ->
    responses_create w k req = Succeeds r ->
    decode_output (output r) "" [] = Return (content, tool_calls) ->
    ChatRun w messages mp tools reuse_history s
      (Return (make_llm_response r content tool_calls),
       recorded
         (with_history
            (log_more s (failed_rounds w req pre ++ [EvCreate req (Succeeds r)]))
            (sent_input s reuse_history wire ++ map OutputItem (output r)))
         (entry_of messages (make_llm_response r content tool_calls) mp tools)).

(** The payload and the error part of a tool result's text, as the data
    model describes them: the error part is the separator and the error when
    an error string is there (neither [None] nor empty). *)
Definition ERROR_SEPARATOR : string := String "010" "Error: ".

Definition payload_text (result : option string) : string :=
  match result with Some r => r | None => "" end.

Definition error_text (error : option string) : string :=
  if opt_truthy error
  then ERROR_SEPARATOR +++ match error with Some e => e | None => "" end
  else "".

Definition serialized_output (result error : option string) : string :=
  strip (payload_text result +++ error_text error).

(** The roles of a text message. *)
Definition valid_role (r : string) : Prop :=
  r = "system" \/ r = "user" \/ r = "assistant".

(** The texts of the output-text blocks of every message block, in order:
    what "the concatenation across all message blocks" joins. *)
Definition all_message_texts (blocks : list OutputBlock) : list string :=
  flat_map (fun b => match b with
                     | MessageBlock cbs => output_texts cbs
                     | _ => []
                     end) blocks.

(** The content blocks of the last message block, if there is one. *)
Fixpoint last_message (blocks : list OutputBlock) : option (list ContentBlock) :=
  match blocks with
  | [] => None
  | b :: rest =>
      match last_message rest with
      | Some cbs => Some cbs
      | None => match b with MessageBlock cbs => Some cbs | _ => None end
      end
  end.

Definition last_message_text (blocks : list OutputBlock) : string :=
  match last_message blocks with
  | Some cbs => join (output_texts cbs)
  | None => ""
  end.

Definition is_message (b : OutputBlock) : bool :=
  match b with MessageBlock _ => true | _ => false end.

(** The function-call blocks of an output, in order. *)
Definition is_function_call (b : OutputBlock) : bool :=
  match b with FunctionCallBlock _ _ _ _ => true | _ => false end.

Definition function_calls (blocks : list OutputBlock) : list OutputBlock :=
  filter is_function_call blocks.

(** The tool call that stands for a function-call block: same call id,
    name and id, arguments decoded (the empty string stands for [{}]). *)
Definition tool_call_of (b : OutputBlock) (tc : ToolCall) : Prop :=
  match b with
  | FunctionCallBlock call_id name arguments id =>
      tc_call_id tc = call_id /\ tc_name tc = name /\ tc_id tc = id /\
      (if truthy arguments
       then json_loads arguments = Some (tc_arguments tc)
       else tc_arguments tc = empty_dict)
  | _ => False
  end.

(** The call is answered by [r]: with the wire input [input], [r] is the
    response of the first attempt that succeeds within [max_retries]. *)
Definition answered_by (w : World) (mp : ModelParameters)
           (tools : option (list Tool)) (input : list WireItem) (r : Response)
  : Prop :=
  exists pre k post,
    range (max_retries mp) = pre ++ k :: post /\
    Forall (fails_at w (make_request input mp tools)) pre /\
    responses_create w k (make_request input mp tools) = Succeeds r.

End Vocabulary.

(* ================================================================== *)
(** ** Concrete inputs *)
(* ================================================================== *)

(** Inputs on which the model is run below. The decoder [TinyJson] knows one
    document, the empty object; it is applied below to the documents
    "{}" and "{" only, where it answers as [json.loads] does (the empty
    mapping, and a [JSONDecodeError]). *)
Module Sample.

#[local] Instance TinyJson : JsonLib :=
  {| JSON := unit;
     json_loads := fun doc => if (doc =? "{}")%string then Some tt else None;
     json_dumps := fun _ => "{}";
     empty_dict := tt |}.

Definition params (m : string) (retries : Z) : ModelParameters :=
  {| model := m; temperature := 0.5%float; top_p := 1%float;
     max_tokens := 4096; max_retries := retries |}.

Definition says (r c : string) : LLMMessage :=
  {| role := r; content := Some c; tool_call := None; tool_result := None |}.

Definition tool_output (tr : ToolResult) : LLMMessage :=
  {| role := "user"; content := None; tool_call := None; tool_result := Some tr |}.

Definition result_42_timeout : ToolResult :=
  {| tr_call_id := "call_1"; tr_success := false; tr_result := Some "42";
     tr_error := Some "timeout"; tr_id := None |}.

Definition result_nothing : ToolResult :=
  {| tr_call_id := "call_2"; tr_success := true; tr_result := None;
     tr_error := None; tr_id := None |}.

(** A client that already holds one item of history and has a recorder. *)
Definition seeded : Sys :=
  {| self := {| message_history := [EasyMessage "system" "be brief"];
                trajectory_recorder := Some [] |};
     effects := [] |}.

Definition reply (blocks : list OutputBlock) : Response :=
  {| output := blocks; usage := None; response_model := "gpt-4o";
     status := Some "completed" |}.

(** Worlds: every attempt answers [r]; the first [n] attempts raise, the
    later ones answer [r]; every attempt raises. *)
Definition always (r : Response) : World :=
  {| responses_create := fun _ _ => Succeeds r; entropy := fun i => i |}.

Definition flaky (n : nat) (r : Response) : World :=
  {| responses_create :=
       fun i _ => if (i <? n)%nat then Fails "boom" else Succeeds r;
     entropy := fun i => i |}.

Definition down : World :=
  {| responses_create := fun _ _ => Fails "boom"; entropy := fun i => i |}.

Definition two_messages : Response :=
  reply [MessageBlock [OutputText "a"]; MessageBlock [OutputText "b"]].

Definition one_call : Response :=
  reply [MessageBlock [OutputText "ok"]; FunctionCallBlock "call_1" "bash" "{}" None].

Definition broken_call : Response :=
  reply [FunctionCallBlock "call_1" "bash" "{" None].

End Sample.

(* ================================================================== *)
(** ** Construction of the client *)
(* ================================================================== *)

Section Construction.

Context {J : JsonLib}.

(** [os.environ], read by key. *)
Definition Environ : Type := string -> option string.

(** [os.getenv(key, default)]. *)
Definition getenv (environ : Environ) (key default : string) : string :=
  match environ key with Some v => v | None => default end.

Definition MISSING_KEY : string :=
  "OpenAI API key not provided. Set OPENAI_API_KEY in environment variables or config file.".

(** What [__init__] leaves on [self]: the two arguments it passes to
    [openai.OpenAI(api_key=..., base_url=...)] and the attributes [chat]
    works on. *)
Record Constructed : Type := {
  c_api_key : string;
  c_base_url : option string;
  c_self : OpenAIClient
}.

(** [OpenAIClient.__init__], from the statement after
    [super().__init__(model_parameters)] on. The base class is not part of
    this file: [api_key], [base_url] and [recorder] are the values of
    [self.api_key], [self.base_url] and [self.trajectory_recorder] as the
    base constructor left them. *)
Definition init (api_key : string) (base_url : option string)
           (recorder : option (list TrajectoryEntry)) (environ : Environ)
  : Raises Constructed :=
  let api_key :=
    if (api_key =? "")%string then getenv environ "OPENAI_API_KEY" "" else api_key in
  if (api_key =? "")%string then Raise (ValueError MISSING_KEY)
  else
    let base_url :=
      match environ "OPENAI_BASE_URL" with
      | Some url => Some url
      | None => base_url
      end in
    Return {| c_api_key := api_key;
              c_base_url := base_url;
              c_self := {| message_history := [];
                           trajectory_recorder := recorder |} |}.

(** The assistant turn that carries a tool call back to the provider. *)
Definition tool_call_message (tc : ToolCall) : LLMMessage :=
  {| role := "assistant"; content := None;
     tool_call := Some tc; tool_result := None |}.

(** The call id and the name of a function call, on either side of the wire. *)
Definition item_call (item : WireItem) : option (string * string) :=
  match item with
  | FunctionCallParam call_id name _ => Some (call_id, name)
  | _ => None
  end.

Definition block_call (b : OutputBlock) : option (string * string) :=
  match b with
  | FunctionCallBlock call_id name _ _ => Some (call_id, name)
  | _ => None
  end.

Definition is_output_item (item : WireItem) : bool :=
  match item with OutputItem _ => true | _ => false end.

(** The capability table without the entries that contain another entry. *)
Definition tool_capable_families : list string :=
  [ "gpt-4-turbo"; "gpt-4o"; "gpt-4.1"; "gpt-4.5"; "o1"; "o3"; "o4-mini" ].

(** A client whose history is [h], everything else fixed. *)
Definition client_with (h : list WireItem)
           (recorder : option (list TrajectoryEntry)) (log : list Event) : Sys :=
  {| self := {| message_history := h; trajectory_recorder := recorder |};
     effects := log |}.

End Construction.

(** More concrete inputs. *)
Module Cases.

Definition no_environ : Environ := fun _ => None.

Definition environ_key_and_url : Environ :=
  fun key =>
    if (key =? "OPENAI_API_KEY")%string then Some "sk-env"
    else if (key =? "OPENAI_BASE_URL")%string then Some "http://localhost:8000/v1"
    else None.

Definition counted : Response :=
  {| output := [MessageBlock [OutputText "ok"]];
     usage := Some {| ru_input_tokens := 12; ru_output_tokens := 3;
                      ru_cached_tokens := 4; ru_reasoning_tokens := 0 |};
     response_model := "gpt-4o-2024-08-06";
     status := Some "completed" |}.

Definition bash_call : ToolCall (J := Sample.TinyJson) :=
  {| tc_name := "bash"; tc_call_id := "call_1"; tc_arguments := @empty_dict Sample.TinyJson; tc_id := None |}.

Definition bash_tool : Tool (J := Sample.TinyJson) :=
  {| tool_name := "bash"; tool_description := "run a command";
     tool_input_schema := @empty_dict Sample.TinyJson |}.

End Cases.

(* ================================================================== *)
(** ** Facts about the string primitives *)
(* ================================================================== *)

Section PyStrFacts.

Lemma append_assoc (a b c : string) : (a +++ b) +++ c = a +++ (b +++ c).
Proof. induction a as [|x a IH]; simpl; [reflexivity | now rewrite IH]. Qed.

Lemma append_empty_r (a : string) : a +++ "" = a.
Proof. induction a as [|x a IH]; simpl; [reflexivity | now rewrite IH]. Qed.

Lemma prefix_iff (p s : string) :
  String.prefix p s = true <-> exists post, s = p +++ post.
Proof.
  revert s. induction p as [|a p IH]; intros s; simpl.
  - split; [intros _; now exists s | intros _; now destruct s].
  - destruct s as [|b s].
    + split; [discriminate | intros [post H]; discriminate].
    + simpl. destruct (ascii_dec a b) as [->|Hne].
      * rewrite IH. split; intros [post H]; exists post.
        -- now rewrite H.
        -- now inversion H.
      * split; [discriminate | intros [post H]; inversion H; congruence].
Qed.

Lemma str_in_unfold (needle hay : string) :
  str_in needle hay =
  if String.prefix needle hay then true
  else match hay with
       | EmptyString => false
       | String _ rest => str_in needle rest
       end.
Proof. destruct hay; reflexivity. Qed.

(** The executable test [needle in hay] decides [Contains]. *)
Lemma str_in_iff (needle hay : string) :
  str_in needle hay = true <-> Contains needle hay.
Proof.
  unfold Contains. induction hay as [|c hay IH]; rewrite str_in_unfold;
    match goal with |- context [String.prefix ?n ?h] =>
      destruct (String.prefix n h) eqn:E end.
  - split; [intros _ | reflexivity].
    apply prefix_iff in E. destruct E as [post E]. now exists "", post.
  - split; [discriminate |].
    intros [pre [post H]]. destruct pre; [|discriminate].
    simpl in H. assert (String.prefix needle "" = true) by
        (apply prefix_iff; now exists post). congruence.
  - split; [intros _ | reflexivity].
    apply prefix_iff in E. destruct E as [post E]. now exists "", post.
  - rewrite IH. split.
    + intros [pre [post H]]. exists (String c pre), post. simpl. now rewrite H.
    + intros [pre [post H]]. destruct pre as [|d pre].
      * simpl in H. assert (String.prefix needle (String c hay) = true) by
          (apply prefix_iff; now exists post). congruence.
      * simpl in H. inversion H. now exists pre, post.
Qed.

Lemma str_in_false_iff (needle hay : string) :
  str_in needle hay = false <-> ~ Contains needle hay.
Proof.
  rewrite <- str_in_iff. destruct (str_in needle hay); split; intros H;
    try reflexivity; try discriminate; try (intros ?; discriminate).
  exfalso. now apply H.
Qed.

Lemma lstrip_split (s : string) :
  exists pre, all_space pre = true /\ s = pre +++ lstrip s.
Proof.
  induction s as [|c s [pre [Hp Hs]]]; simpl.
  - now exists "".
  - destruct (isspace c) eqn:E.
    + exists (String c pre). simpl. rewrite E, Hp. split; [reflexivity | now rewrite <- Hs].
    + now exists "".
Qed.

Lemma lstrip_first (s : string) (c : ascii) :
  first_char (lstrip s) = Some c -> isspace c = false.
Proof.
  induction s as [|d s IH]; simpl; [discriminate |].
  destruct (isspace d) eqn:E; [exact IH |].
  simpl. intros H. inversion H. now subst.
Qed.

Lemma rstrip_split (s : string) :
  exists post, all_space post = true /\ s = rstrip s +++ post.
Proof.
  induction s as [|c s [post [Hp Hs]]]; simpl.
  - now exists "".
  - destruct (rstrip s) as [|d kept] eqn:E.
    + simpl in Hs. subst s. destruct (isspace c) eqn:Ec.
      * exists (String c post). simpl. now rewrite Ec, Hp.
      * exists post. now split.
    + exists post. split; [exact Hp |]. simpl. now rewrite Hs at 1.
Qed.

Lemma rstrip_last (s : string) (c : ascii) :
  last_char (rstrip s) = Some c -> isspace c = false.
Proof.
  induction s as [|d s IH]; simpl; [discriminate |].
  destruct (rstrip s) as [|e kept] eqn:E.
  - destruct (isspace d) eqn:Ed; simpl; [discriminate |].
    intros H. inversion H. now subst.
  - intros H. apply IH. exact H.
Qed.

Lemma rstrip_first (s : string) (c : ascii) :
  first_char (rstrip s) = Some c -> first_char s = Some c.
Proof.
  destruct s as [|d s]; simpl; [discriminate |].
  destruct (rstrip s); [destruct (isspace d) |]; simpl; congruence.
Qed.

(** [strip] removes a run of whitespace at each end and leaves a string
    with no whitespace at either end. *)
Lemma strip_spec (s : string) :
  trimmed (strip s) /\
  exists pre post, all_space pre = true /\ all_space post = true /\
                   s = pre +++ strip s +++ post.
Proof.
  unfold strip. split.
  - split; intros c H.
    + apply rstrip_first in H. now apply lstrip_first in H.
    + now apply rstrip_last in H.
  - destruct (lstrip_split s) as [pre [Hpre Hs]].
    destruct (rstrip_split (lstrip s)) as [post [Hpost Hl]].
    exists pre, post. repeat split; try assumption.
    rewrite <- Hl. exact Hs.
Qed.

(** A string that is already trimmed is left alone. *)
Lemma lstrip_id (s : string) :
  (forall c, first_char s = Some c -> isspace c = false) -> lstrip s = s.
Proof.
  destruct s as [|d s]; simpl; [reflexivity |].
  intros H. now rewrite (H d eq_refl).
Qed.

Lemma rstrip_id (s : string) :
  (forall c, last_char s = Some c -> isspace c = false) -> rstrip s = s.
Proof.
  induction s as [|d s IH]; simpl; [reflexivity |].
  intros H. destruct s as [|e s].
  - simpl. now rewrite (H d eq_refl).
  - rewrite IH by exact H. reflexivity.
Qed.

Lemma strip_trimmed (s : string) : trimmed s -> strip s = s.
Proof.
  intros [Hf Hl]. unfold strip. rewrite (lstrip_id s Hf). now apply rstrip_id.
Qed.

End PyStrFacts.

(* ================================================================== *)
(** ** The retry loop *)
(* ================================================================== *)

Section RetryFacts.

Context {J : JsonLib}.
Variable w : World.
Variable req : Request.

Local Abbreviation fails_at := (fails_at w req).
Local Abbreviation failure_text := (failure_text w req).
Local Abbreviation diagnostics := (diagnostics w req).
Local Abbreviation failed_round := (failed_round w req).
Local Abbreviation failed_rounds := (failed_rounds w req).

Lemma log_more_nil (s : Sys) : log_more s [] = s.
Proof. destruct s. unfold log_more. simpl. now rewrite app_nil_r. Qed.

Lemma log_more_app (s : Sys) (a b : list Event) :
  log_more (log_more s a) b = log_more s (a ++ b).
Proof. unfold log_more. simpl. now rewrite app_assoc. Qed.

Lemma diagnostics_cons (i : nat) (l : list nat) :
  diagnostics (i :: l) = error_line i (failure_text i) +++ diagnostics l.
Proof. reflexivity. Qed.

Lemma diagnostics_app (a b : list nat) :
  diagnostics (a ++ b) = diagnostics a +++ diagnostics b.
Proof.
  induction a as [|i a IH]; [reflexivity |].
  simpl app. rewrite !diagnostics_cons, IH. now rewrite append_assoc.
Qed.

Lemma failed_rounds_cons (i : nat) (l : list nat) :
  failed_rounds (i :: l) = failed_round i ++ failed_rounds l.
Proof. reflexivity. Qed.

(** One turn of the loop on a failing attempt ... *)
Lemma retry_loop_step_fail (i : nat) (rest : list nat) (str_e : string) :
  responses_create w i req = Fails str_e ->
  forall error_message s,
    retry_loop w req (i :: rest) error_message s =
    retry_loop w req rest (error_message +++ error_line i str_e)
               (log_more s (failed_round i)).
Proof.
  intros Hi error_message s. simpl retry_loop.
  unfold bind, create, time_sleep, emit. rewrite Hi.
  unfold log_more, failed_round. cbn [self effects]. rewrite Hi.
  now rewrite <- app_assoc.
Qed.

(** ... and on a succeeding one ([break]). *)
Lemma retry_loop_step_break (i : nat) (rest : list nat) (r : Response) :
  responses_create w i req = Succeeds r ->
  forall error_message s,
    retry_loop w req (i :: rest) error_message s =
    (Return (Some r, error_message), log_more s [EvCreate req (Succeeds r)]).
Proof.
  intros Hi error_message s. simpl retry_loop.
  unfold bind, create, ret. now rewrite Hi.
Qed.

Lemma retry_loop_all_fail (indices : list nat) :
  Forall fails_at indices ->
  forall error_message s,
    retry_loop w req indices error_message s =
    (Return (None, error_message +++ diagnostics indices),
     log_more s (failed_rounds indices)).
Proof.
  induction 1 as [|i rest [str_e Hi] _ IH]; intros error_message s.
  - simpl. unfold ret. now rewrite append_empty_r, log_more_nil.
  - rewrite (retry_loop_step_fail i rest str_e Hi), IH, log_more_app.
    rewrite diagnostics_cons, failed_rounds_cons. unfold failure_text.
    rewrite Hi. now rewrite append_assoc.
Qed.

Lemma retry_loop_first_success (pre post : list nat) (k : nat) (r : Response) :
  Forall fails_at pre ->
  responses_create w k req = Succeeds r ->
  forall error_message s,
    retry_loop w req (pre ++ k :: post) error_message s =
    (Return (Some r, error_message +++ diagnostics pre),
     log_more s (failed_rounds pre ++ [EvCreate req (Succeeds r)])).
Proof.
  intros Hpre Hk. induction Hpre as [|i rest [str_e Hi] _ IH];
    intros error_message s.
  - simpl app. rewrite (retry_loop_step_break k post r Hk).
    now rewrite append_empty_r.
  - rewrite <- app_comm_cons, (retry_loop_step_fail i (rest ++ k :: post) str_e Hi), IH.
    rewrite log_more_app, diagnostics_cons, failed_rounds_cons.
    unfold failure_text. rewrite Hi. now rewrite append_assoc, app_assoc.
Qed.

(** Either every attempt of the list fails, or there is a first one that
    succeeds. *)
Lemma attempts_dichotomy (indices : list nat) :
  Forall fails_at indices \/
  exists pre k post r,
    indices = pre ++ k :: post /\ Forall fails_at pre /\
    responses_create w k req = Succeeds r.
Proof.
  induction indices as [|i rest IH].
  - left. constructor.
  - destruct (responses_create w i req) as [r|str_e] eqn:Hi.
    + right. exists [], i, rest, r. repeat split; [constructor | exact Hi].
    + assert (Hf : fails_at i) by (now exists str_e).
      destruct IH as [Hall | (pre & k & post & r & -> & Hpre & Hk)].
      * left. now constructor.
      * right. exists (i :: pre), k, post, r. repeat split; [now constructor | exact Hk].
Qed.







(** Every request logged by failed attempts is [req]. *)
Lemma failed_rounds_requests (indices : list nat) (r : Request) (o : CallOutcome) :
  In (EvCreate r o) (failed_rounds indices) -> r = req.
Proof.
  unfold failed_rounds. rewrite in_flat_map. intros (i & _ & Hin).
  simpl in Hin. destruct Hin as [H | [H | []]]; [now inversion H | discriminate].
Qed.



End RetryFacts.

(* ================================================================== *)
(** ** The runs of [chat] *)
(* ================================================================== *)

Section ChatRuns.

Context {J : JsonLib}.

(** Every call of [chat] is one of these runs. *)
Lemma chat_run (w : World) (messages : list LLMMessage) (mp : ModelParameters)
      (tools : option (list Tool)) (reuse_history : bool) (s : Sys) :
  ChatRun w messages mp tools reuse_history s
          (chat w messages mp tools reuse_history s).
Proof.
  unfold chat, bind at 1, lift.
  destruct (parse_messages messages) as [wire|e] eqn:Hparse;
    [| now apply run_invalid_message].
  unfold bind at 1, get_message_history.
  fold (sent_input s reuse_history wire).
  set (req := make_request (sent_input s reuse_history wire) mp tools).
  unfold bind at 1.
  destruct (attempts_dichotomy w req (range (max_retries mp)))
    as [Hall | (pre & k & post & r & Hsplit & Hpre & Hk)].
  - rewrite (retry_loop_all_fail w req _ Hall). unfold raise. simpl.
    now apply run_exhausted with (wire := wire).
  - rewrite Hsplit, (retry_loop_first_success w req pre post k r Hpre Hk).
    simpl append. unfold bind at 1.
    unfold set_message_history at 1. unfold bind at 1, lift.
    destruct (decode_output (output r) "" []) as [[content tool_calls]|e] eqn:Hdec.
    + unfold bind, ret.
      destruct (record_llm_interaction _ _) as [res s'] eqn:Hrec.
      assert (Hres : res = Return tt /\
                     s' = recorded (with_history
                            (log_more s (failed_rounds w req pre ++ [EvCreate req (Succeeds r)]))
                            (sent_input s reuse_history wire ++ map OutputItem (output r)))
                            (entry_of messages (make_llm_response r content tool_calls) mp tools)).
      { unfold recorded, with_history, set_message_history, entry_of. cbn [snd].
        rewrite Hrec. split; [|reflexivity].
        unfold record_llm_interaction in Hrec.
        destruct (trajectory_recorder _) in Hrec; now inversion Hrec. }
      destruct Hres as [-> ->].
      now apply run_returns with (wire := wire) (req := req) (post := post) (k := k).
    + now apply run_undecodable with (wire := wire) (req := req) (post := post) (k := k).
Qed.

End ChatRuns.

(* ================================================================== *)
(** ** Translation of messages *)
(* ================================================================== *)

Section TranslationFacts.

Context {J : JsonLib}.

Lemma tool_result_content_eq (tr : ToolResult) :
  tool_result_content tr = serialized_output (tr_result tr) (tr_error tr).
Proof.
  unfold tool_result_content, serialized_output, payload_text, error_text,
    ERROR_SEPARATOR.
  destruct (tr_result tr) as [r|], (tr_error tr) as [e|]; simpl;
    try destruct (truthy e); simpl; rewrite ?append_empty_r; reflexivity.
Qed.

Lemma parse_messages_from_app (a b : list LLMMessage) :
  forall acc,
    parse_messages_from acc (a ++ b) =
    match parse_messages_from acc a with
    | Return acc' => parse_messages_from acc' b
    | Raise e => Raise e
    end.
Proof.
  induction a as [|m a IH]; intros acc; simpl; [reflexivity |].
  destruct (parse_message m); [apply IH | reflexivity].
Qed.

(** The accumulator only grows: the items already built stay in front. *)
Lemma parse_messages_from_acc (l : list LLMMessage) :
  forall acc,
    parse_messages_from acc l =
    match parse_messages_from [] l with
    | Return items => Return (acc ++ items)
    | Raise e => Raise e
    end.
Proof.
  induction l as [|m l IH]; intros acc; simpl.
  - now rewrite app_nil_r.
  - destruct (parse_message m) as [item|e]; [|reflexivity].
    rewrite (IH (acc ++ [item])), (IH [item]).
    destruct (parse_messages_from [] l); [|reflexivity].
    now rewrite <- app_assoc.
Qed.

Lemma parse_messages_snoc_raise (before after : list LLMMessage)
      (items : list WireItem) (msg : LLMMessage) (e : Exception) :
  parse_messages before = Return items ->
  parse_message msg = Raise e ->
  parse_messages (before ++ msg :: after) = Raise e.
Proof.
  unfold parse_messages. intros Hb Hm.
  rewrite parse_messages_from_app, Hb. simpl. now rewrite Hm.
Qed.

Lemma parse_messages_snoc_return (before : list LLMMessage)
      (items : list WireItem) (msg : LLMMessage) (item : WireItem) :
  parse_messages before = Return items ->
  parse_message msg = Return item ->
  parse_messages (before ++ [msg]) = Return (items ++ [item]).
Proof.
  unfold parse_messages. intros Hb Hm.
  rewrite parse_messages_from_app, Hb. simpl. now rewrite Hm.
Qed.

Lemma truthy_false_iff (s : string) : truthy s = false <-> s = "".
Proof. destruct s; simpl; split; congruence. Qed.

Lemma valid_role_dec (r : string) : {valid_role r} + {~ valid_role r}.
Proof.
  unfold valid_role.
  destruct (string_dec r "system"); [left; tauto |].
  destruct (string_dec r "user"); [left; tauto |].
  destruct (string_dec r "assistant"); [left; tauto |].
  right. tauto.
Qed.

(** A text message with content: the role decides. *)
Lemma parse_text_message (msg : LLMMessage) (c : string) :
  tool_call msg = None -> tool_result msg = None ->
  content msg = Some c -> c <> "" ->
  parse_message msg =
  if valid_role_dec (role msg)
  then Return (EasyMessage (role msg) c)
  else Raise (ValueError ("Invalid message role: " +++ role msg)).
Proof.
  intros Htc Htr Hc Hne. unfold parse_message. rewrite Htr, Htc, Hc.
  assert (Ht : truthy c = true) by (destruct c; [contradiction | reflexivity]).
  simpl opt_truthy. rewrite Ht. simpl negb. cbv iota.
  destruct (valid_role_dec (role msg)) as [[E | [E | E]] | Hbad].
  - rewrite E. reflexivity.
  - rewrite E. reflexivity.
  - rewrite E. reflexivity.
  - unfold valid_role in Hbad.
    destruct (String.eqb_spec (role msg) "system"); [tauto |].
    destruct (String.eqb_spec (role msg) "user"); [tauto |].
    destruct (String.eqb_spec (role msg) "assistant"); [tauto |].
    reflexivity.
Qed.

Lemma parse_text_message_no_content (msg : LLMMessage) :
  tool_call msg = None -> tool_result msg = None ->
  content msg = None \/ content msg = Some "" ->
  parse_message msg = Raise (ValueError "Message content is required").
Proof.
  intros Htc Htr Hc. unfold parse_message. rewrite Htr, Htc.
  destruct Hc as [-> | ->]; reflexivity.
Qed.

End TranslationFacts.

(* ================================================================== *)
(** ** Decomposition of the response *)
(* ================================================================== *)

Section DecodeFacts.

Context {J : JsonLib}.

(** The loop over the output blocks keeps the text of the last message block
    (the incoming [content] when there is none) and appends one tool call
    per function-call block. *)
Lemma decode_output_returns (blocks : list OutputBlock) :
  forall content tool_calls content' tool_calls',
    decode_output blocks content tool_calls = Return (content', tool_calls') ->
    content' = match last_message blocks with
               | Some cbs => join (output_texts cbs)
               | None => content
               end /\
    exists new, tool_calls' = tool_calls ++ new /\
                Forall2 tool_call_of (function_calls blocks) new.
Proof.
  induction blocks as [|b rest IH]; intros content tool_calls content' tool_calls' H.
  - simpl in H. inversion H; subst. split; [reflexivity |].
    exists []. rewrite app_nil_r. split; [reflexivity | constructor].
  - destruct b as [call_id name arguments id | cbs | ty]; simpl in H.
    + destruct (truthy arguments) eqn:Ht.
      * destruct (json_loads arguments) as [args|] eqn:Hl; [|discriminate].
        apply IH in H. destruct H as [Hc (new & Hn & Hf)]. split.
        -- simpl. rewrite Hc. now destruct (last_message rest).
        -- eexists (_ :: new). rewrite <- app_assoc in Hn. split; [exact Hn |].
           simpl. constructor; [|exact Hf]. simpl. rewrite Ht. auto.
      * apply IH in H. destruct H as [Hc (new & Hn & Hf)]. split.
        -- simpl. rewrite Hc. now destruct (last_message rest).
        -- eexists (_ :: new). rewrite <- app_assoc in Hn. split; [exact Hn |].
           simpl. constructor; [|exact Hf]. simpl. rewrite Ht. auto.
    + apply IH in H. destruct H as [Hc Hn]. split; [|exact Hn].
      simpl. rewrite Hc. now destruct (last_message rest).
    + apply IH in H. destruct H as [Hc Hn]. split; [|exact Hn].
      simpl. rewrite Hc. now destruct (last_message rest).
Qed.

(** The only exception of the decomposition is the decoder's, on the
    arguments of a function-call block. *)
Lemma decode_output_raises (blocks : list OutputBlock) :
  forall content tool_calls e,
    decode_output blocks content tool_calls = Raise e ->
    exists call_id name arguments id,
      In (FunctionCallBlock call_id name arguments id) blocks /\
      arguments <> "" /\ json_loads arguments = None /\
      e = JSONDecodeError arguments.
Proof.
  induction blocks as [|b rest IH]; intros content tool_calls e H;
    [discriminate |].
  destruct b as [call_id name arguments id | cbs | ty]; simpl in H.
  - destruct (truthy arguments) eqn:Ht.
    + destruct (json_loads arguments) as [args|] eqn:Hl.
      * apply IH in H. destruct H as (c & n & a & i & Hin & Hrest).
        exists c, n, a, i. split; [now right | exact Hrest].
      * inversion H; subst. exists call_id, name, arguments, id.
        repeat split; [now left | | exact Hl].
        intros ->. discriminate.
    + apply IH in H. destruct H as (c & n & a & i & Hin & Hrest).
      exists c, n, a, i. split; [now right | exact Hrest].
  - apply IH in H. destruct H as (c & n & a & i & Hin & Hrest).
    exists c, n, a, i. split; [now right | exact Hrest].
  - apply IH in H. destruct H as (c & n & a & i & Hin & Hrest).
    exists c, n, a, i. split; [now right | exact Hrest].
Qed.

(** It returns as soon as every non-empty arguments string decodes. *)
Lemma decode_output_total (blocks : list OutputBlock) :
  (forall call_id name arguments id,
      In (FunctionCallBlock call_id name arguments id) blocks ->
      arguments <> "" -> json_loads arguments <> None) ->
  forall content tool_calls,
  exists content' tool_calls',
    decode_output blocks content tool_calls = Return (content', tool_calls').
Proof.
  intros Hok content tool_calls.
  destruct (decode_output blocks content tool_calls) as [[c t]|e] eqn:H.
  - now exists c, t.
  - apply decode_output_raises in H.
    destruct H as (c & n & a & i & Hin & Hne & Hl & _).
    exfalso. exact (Hok c n a i Hin Hne Hl).
Qed.

Lemma Forall2_length_eq {A B} (R : A -> B -> Prop) (l : list A) (l' : list B) :
  Forall2 R l l' -> List.length l = List.length l'.
Proof. induction 1; simpl; congruence. Qed.

End DecodeFacts.

(* ================================================================== *)
(** ** What a run leaves behind *)
(* ================================================================== *)

Section RunFacts.

Context {J : JsonLib}.

Lemma history_with_history (s : Sys) (h : list WireItem) :
  message_history (self (with_history s h)) = h.
Proof. reflexivity. Qed.

Lemma effects_with_history (s : Sys) (h : list WireItem) :
  effects (with_history s h) = effects s.
Proof. reflexivity. Qed.

Lemma history_recorded (s : Sys) (entry : TrajectoryEntry) :
  message_history (self (recorded s entry)) = message_history (self s).
Proof.
  unfold recorded, record_llm_interaction.
  now destruct (trajectory_recorder (self s)).
Qed.

Lemma effects_recorded (s : Sys) (entry : TrajectoryEntry) :
  effects (recorded s entry) = effects s.
Proof.
  unfold recorded, record_llm_interaction.
  now destruct (trajectory_recorder (self s)).
Qed.

Lemma history_log_more (s : Sys) (evs : list Event) :
  message_history (self (log_more s evs)) = message_history (self s).
Proof. reflexivity. Qed.

Lemma effects_log_more (s : Sys) (evs : list Event) :
  effects (log_more s evs) = effects s ++ evs.
Proof. reflexivity. Qed.

Variable w : World.
Variable messages : list LLMMessage.
Variable mp : ModelParameters.
Variable tools : option (list Tool).
Variable reuse_history : bool.
Variable s : Sys.

(** A call that returns went through a successful attempt and a successful
    decomposition. *)
Lemma chat_returns_inv (resp : LLMResponse) (s' : Sys) :
  chat w messages mp tools reuse_history s = (Return resp, s') ->
  exists wire pre k post r content tool_calls,
    let input := sent_input s reuse_history wire in
    let req := make_request input mp tools in
    parse_messages messages = Return wire /\
    range (max_retries mp) = pre ++ k :: post /\
    Forall (fails_at w req) pre /\
    responses_create w k req = Succeeds r /\
    decode_output (output r) "" [] = Return (content, tool_calls) /\
    resp = make_llm_response r content tool_calls /\
    message_history (self s') = input ++ map OutputItem (output r) /\
    effects s' = effects s ++ failed_rounds w req pre ++ [EvCreate req (Succeeds r)].
Proof.
  intros H. pose proof (chat_run w messages mp tools reuse_history s) as R.
  rewrite H in R. inversion R as [ | | | wire req pre post k r content tool_calls
                                       Hparse Hreq Hsplit Hpre Hk Hdec Hresp]; subst.
  exists wire, pre, k, post, r, content, tool_calls. cbv zeta.
  repeat split; try assumption.
  - now rewrite history_recorded, history_with_history.
  - now rewrite effects_recorded, effects_with_history, effects_log_more.
Qed.

(** A call that raises did so in one of three places. *)
Lemma chat_raises_inv (e : Exception) (s' : Sys) :
  chat w messages mp tools reuse_history s = (Raise e, s') ->
  (parse_messages messages = Raise e /\ s' = s)
  \/ (exists wire,
        let req := make_request (sent_input s reuse_history wire) mp tools in
        parse_messages messages = Return wire /\
        Forall (fails_at w req) (range (max_retries mp)) /\
        e = ValueError (FAILED_PREFIX +++ diagnostics w req (range (max_retries mp))) /\
        s' = log_more s (failed_rounds w req (range (max_retries mp))))
  \/ (exists wire pre k post r,
        let input := sent_input s reuse_history wire in
        let req := make_request input mp tools in
        parse_messages messages = Return wire /\
        range (max_retries mp) = pre ++ k :: post /\
        Forall (fails_at w req) pre /\
        responses_create w k req = Succeeds r /\
        decode_output (output r) "" [] = Raise e /\
        message_history (self s') = input ++ map OutputItem (output r) /\
        effects s' = effects s ++ failed_rounds w req pre ++ [EvCreate req (Succeeds r)]).
Proof.
  intros H. pose proof (chat_run w messages mp tools reuse_history s) as R.
  rewrite H in R.
  inversion R as [ e0 Hparse
                 | wire req Hparse Hreq Hall
                 | wire req pre post k r e0 Hparse Hreq Hsplit Hpre Hk Hdec
                 | ]; subst.
  - left. now split.
  - right. left. exists wire. cbv zeta. now repeat split.
  - right. right. exists wire, pre, k, post, r. cbv zeta.
    repeat split; assumption || reflexivity.
Qed.

(** The successful attempt is determined by the world: two splits of the
    attempts at a first success coincide. *)
Lemma first_success_unique (req : Request) (l pre pre' post post' : list nat)
      (k k' : nat) (r r' : Response) :
  l = pre ++ k :: post -> Forall (fails_at w req) pre ->
  responses_create w k req = Succeeds r ->
  l = pre' ++ k' :: post' -> Forall (fails_at w req) pre' ->
  responses_create w k' req = Succeeds r' ->
  pre = pre' /\ k = k' /\ r = r'.
Proof.
  intros -> Hpre Hk. revert pre' Hpre.
  induction pre as [|i pre IH]; intros pre' Hpre Hsplit Hpre' Hk'.
  - destruct pre' as [|j pre'].
    + simpl in Hsplit. inversion Hsplit; subst. rewrite Hk in Hk'.
      inversion Hk'. now repeat split.
    + simpl in Hsplit. inversion Hsplit; subst.
      inversion Hpre' as [|? ? [str_e Hj] _]; subst. congruence.
  - destruct pre' as [|j pre'].
    + simpl in Hsplit. inversion Hsplit; subst.
      inversion Hpre as [|? ? [str_e Hi] _]; subst. congruence.
    + simpl in Hsplit. inversion Hsplit; subst.
      inversion Hpre; subst. inversion Hpre'; subst.
      destruct (IH pre') as (-> & -> & ->); auto.
Qed.

End RunFacts.

(* ================================================================== *)
(** ** Properties of the translation and of the capability table *)
(* ================================================================== *)

Section TranslationClaims.

Context {J : JsonLib}.

(** C5. [parse_tool_call_result] builds a function-call-output item, keyed by
    the call id, whose output text is the success payload followed, when
    there is an error string (neither [None] nor empty, as the test
    [if tool_call_result.error] reads it), by the separator "\nError: " and
    the error, the whole stripped of surrounding whitespace: the text has no
    whitespace at either end. With result "42" and error "timeout" the text
    is exactly "42\nError: timeout". *)
Theorem tool_result_output_text (tr : ToolResult) :
  parse_tool_call_result tr =
    FunctionCallOutput (tr_call_id tr)
                       (serialized_output (tr_result tr) (tr_error tr)) /\
  (forall e, tr_error tr = Some e -> e <> "" ->
     serialized_output (tr_result tr) (tr_error tr) =
     strip (payload_text (tr_result tr) +++ NEWLINE +++ "Error: " +++ e)) /\
  (tr_error tr = None \/ tr_error tr = Some "" ->
     serialized_output (tr_result tr) (tr_error tr) =
     strip (payload_text (tr_result tr))) /\
  trimmed (serialized_output (tr_result tr) (tr_error tr)) /\
  (tr_result tr = Some "42" -> tr_error tr = Some "timeout" ->
     parse_tool_call_result tr =
     FunctionCallOutput (tr_call_id tr) ("42" +++ NEWLINE +++ "Error: timeout")).
Proof.
  assert (Hitem : parse_tool_call_result tr =
                  FunctionCallOutput (tr_call_id tr)
                    (serialized_output (tr_result tr) (tr_error tr))).
  { unfold parse_tool_call_result. now rewrite tool_result_content_eq. }
  split; [exact Hitem |]. split; [| split; [| split]].
  - intros e He Hne. unfold serialized_output, error_text. rewrite He.
    simpl opt_truthy. destruct e as [|c e]; [contradiction | reflexivity].
  - intros [He | He]; unfold serialized_output, error_text; rewrite He; simpl;
      now rewrite append_empty_r.
  - apply strip_spec.
  - intros Hr He. rewrite Hitem, Hr, He. reflexivity.
Qed.

(** C10. [parse_tool_call_result] returns a function-call-output item for
    every tool result and never raises: the branch of [parse_messages] that
    calls it returns, whatever else the message holds. When both the payload
    and the error are absent the output text is the empty string. *)
Theorem parse_tool_call_result_total (tr : ToolResult) :
  (exists out,
     parse_tool_call_result tr = FunctionCallOutput (tr_call_id tr) out /\
     (tr_result tr = None -> tr_error tr = None -> out = "")) /\
  (forall r c tc,
     parse_message {| role := r; content := c; tool_call := tc;
                      tool_result := Some tr |}
     = Return (parse_tool_call_result tr)) /\
  (forall r c tc,
     parse_messages [{| role := r; content := c; tool_call := tc;
                        tool_result := Some tr |}]
     = Return [parse_tool_call_result tr]).
Proof.
  split; [| split].
  - exists (tool_result_content tr). split; [reflexivity |].
    intros Hr He. unfold tool_result_content. now rewrite Hr, He.
  - reflexivity.
  - reflexivity.
Qed.

(** C6. A message with neither a tool call nor a tool result: translation
    raises a [ValueError] when the role is not one of system, user,
    assistant, or when the content is absent or empty, and the whole
    [parse_messages] call raises it once the messages before it translated;
    otherwise the message becomes the text item tagged with its role and
    carrying its content. *)
Theorem text_message_translation (msg : LLMMessage) :
  tool_call msg = None -> tool_result msg = None ->
  ((~ valid_role (role msg) \/ content msg = None \/ content msg = Some "") ->
   exists text,
     parse_message msg = Raise (ValueError text) /\
     forall before after items,
       parse_messages before = Return items ->
       parse_messages (before ++ msg :: after) = Raise (ValueError text)) /\
  (forall c,
     valid_role (role msg) -> content msg = Some c -> c <> "" ->
     parse_message msg = Return (EasyMessage (role msg) c) /\
     forall before items,
       parse_messages before = Return items ->
       parse_messages (before ++ [msg]) =
       Return (items ++ [EasyMessage (role msg) c])).
Proof.
  intros Htc Htr. split.
  - intros Hbad.
    assert (Hraise : exists text, parse_message msg = Raise (ValueError text)).
    { destruct (content msg) as [c|] eqn:Hc.
      - destruct (string_dec c "") as [-> | Hne].
        + eexists. apply parse_text_message_no_content; auto.
        + destruct Hbad as [Hrole | [Habs | Hemp]]; try congruence.
          rewrite (parse_text_message msg c Htc Htr Hc Hne).
          destruct (valid_role_dec (role msg)); [contradiction |].
          now eexists.
      - eexists. apply parse_text_message_no_content; auto. }
    destruct Hraise as [text Hraise]. exists text. split; [exact Hraise |].
    intros before after items Hb.
    now apply parse_messages_snoc_raise with (items := items).
  - intros c Hrole Hc Hne.
    assert (Hret : parse_message msg = Return (EasyMessage (role msg) c)).
    { rewrite (parse_text_message msg c Htc Htr Hc Hne).
      destruct (valid_role_dec (role msg)); [reflexivity | contradiction]. }
    split; [exact Hret |]. intros before items Hb.
    now apply parse_messages_snoc_return.
Qed.

(** C8. [supports_tool_calling] is false for every model name that contains
    "o1-mini"; for the other names it is true exactly when the name contains
    one of the entries of the fixed table. It is false for
    "o1-mini-2024-09-12" and true for "gpt-4o-2024-08-06". *)
Theorem supports_tool_calling_table (mp : ModelParameters) :
  (Contains "o1-mini" (model mp) -> supports_tool_calling mp = false) /\
  (~ Contains "o1-mini" (model mp) ->
   (supports_tool_calling mp = true <->
    exists entry, In entry tool_capable_models /\ Contains entry (model mp))) /\
  (model mp = "o1-mini-2024-09-12" -> supports_tool_calling mp = false) /\
  (model mp = "gpt-4o-2024-08-06" -> supports_tool_calling mp = true).
Proof.
  unfold supports_tool_calling. split; [| split; [| split]].
  - intros H. apply str_in_iff in H. now rewrite H.
  - intros H. apply str_in_false_iff in H. rewrite H.
    rewrite existsb_exists. split; intros (entry & Hin & Hc); exists entry;
      (split; [exact Hin | now apply str_in_iff]).
  - intros ->. reflexivity.
  - intros ->. reflexivity.
Qed.

End TranslationClaims.

(** The text message "user: hi" translates; an unknown role does not. *)
Lemma text_message_translation_witness :
  parse_message (Sample.says "user" "hi") = Return (EasyMessage "user" "hi") /\
  exists text, parse_message (Sample.says "tool" "hi") = Raise (ValueError text).
Proof.
  split.
  - destruct (text_message_translation (Sample.says "user" "hi") eq_refl eq_refl)
      as [_ H].
    apply (H "hi"); [right; left; reflexivity | reflexivity | discriminate].
  - destruct (text_message_translation (Sample.says "tool" "hi") eq_refl eq_refl)
      as [H _].
    destruct H as [text [H _]].
    + left. unfold valid_role. simpl. intros [H | [H | H]]; discriminate.
    + now exists text.
Defined.

(* ================================================================== *)
(** ** Properties of [chat]: the response and the history *)
(* ================================================================== *)

Section ResponseClaims.

Context {J : JsonLib}.

Variable w : World.
Variable messages : list LLMMessage.
Variable mp : ModelParameters.
Variable tools : option (list Tool).
Variable reuse_history : bool.
Variable s : Sys.

(** With at most one message block, the last message block has all the
    text there is. *)
Lemma last_message_text_single (blocks : list OutputBlock) :
  List.length (filter is_message blocks) <= 1 ->
  last_message_text blocks = join (all_message_texts blocks).
Proof.
  unfold last_message_text.
  assert (Hnone : forall bs, filter is_message bs = [] ->
                             last_message bs = None /\ all_message_texts bs = []).
  { induction bs as [|b bs IH]; [now split |].
    destruct b; simpl; try discriminate; intros H;
      destruct (IH H) as [-> Ht]; now split. }
  induction blocks as [|b rest IH]; intros Hlen; [reflexivity |].
  destruct b as [c n a i | cbs | ty]; simpl in Hlen |- *.
  - rewrite <- (IH Hlen). now destruct (last_message rest).
  - assert (Hrest : filter is_message rest = []).
    { destruct (filter is_message rest); [reflexivity | simpl in Hlen; lia]. }
    destruct (Hnone rest Hrest) as [Hl Ht].
    unfold all_message_texts in *. simpl. rewrite Hl, Ht.
    now rewrite app_nil_r.
  - rewrite <- (IH Hlen). now destruct (last_message rest).
Qed.

(** C1 (as amended). When [chat] returns, the content of the returned
    response is the concatenation, in order and with no separator, of the
    output-text blocks of the LAST message block of the provider's output,
    and the empty string when the output has no message block. This is the
    concatenation over all message blocks when the output has at most one. *)
Theorem chat_content_is_last_message_text (resp : LLMResponse) (s' : Sys) :
  chat w messages mp tools reuse_history s = (Return resp, s') ->
  exists wire r,
    parse_messages messages = Return wire /\
    answered_by w mp tools (sent_input s reuse_history wire) r /\
    resp_content resp = last_message_text (output r) /\
    (List.length (filter is_message (output r)) <= 1 ->
     resp_content resp = join (all_message_texts (output r))).
Proof.
  intros H. apply chat_returns_inv in H.
  destruct H as (wire & pre & k & post & r & content & tool_calls & H).
  cbv zeta in H.
  destruct H as (Hparse & Hsplit & Hpre & Hk & Hdec & -> & _).
  exists wire, r. split; [exact Hparse |]. split; [now exists pre, k, post |].
  apply decode_output_returns in Hdec. destruct Hdec as [Hc _].
  assert (Hlast : content = last_message_text (output r)) by exact Hc.
  split; [exact Hlast |].
  intros Hone. simpl. rewrite Hlast. now apply last_message_text_single.
Qed.

(** C2. When [chat] returns, the stored history is the wire input that was
    sent, followed by the provider's output blocks, whatever
    [reuse_history] is: every request of the call carried that input, which
    is the translation of the new messages alone when [reuse_history] is
    false, and the previous history followed by it when true. *)
Theorem chat_history_after_success (resp : LLMResponse) (s' : Sys) :
  chat w messages mp tools reuse_history s = (Return resp, s') ->
  exists wire r new,
    parse_messages messages = Return wire /\
    answered_by w mp tools (sent_input s reuse_history wire) r /\
    effects s' = effects s ++ new /\
    (forall req o, In (EvCreate req o) new ->
                   req_input req = sent_input s reuse_history wire) /\
    In (EvCreate (make_request (sent_input s reuse_history wire) mp tools)
                 (Succeeds r)) new /\
    message_history (self s') =
      sent_input s reuse_history wire ++ map OutputItem (output r) /\
    (reuse_history = false -> sent_input s reuse_history wire = wire) /\
    (reuse_history = true ->
     sent_input s reuse_history wire = message_history (self s) ++ wire).
Proof.
  intros H. apply chat_returns_inv in H.
  destruct H as (wire & pre & k & post & r & content & tool_calls & H).
  cbv zeta in H.
  destruct H as (Hparse & Hsplit & Hpre & Hk & Hdec & _ & Hhist & Heff).
  set (input := sent_input s reuse_history wire) in *.
  set (req := make_request input mp tools) in *.
  exists wire, r, (failed_rounds w req pre ++ [EvCreate req (Succeeds r)]).
  split; [exact Hparse |]. split; [now exists pre, k, post |].
  split; [exact Heff |]. split; [| split; [| split; [exact Hhist | split]]].
  - intros rq o Hin. apply in_app_or in Hin. destruct Hin as [Hin | [Hin | []]].
    + apply failed_rounds_requests in Hin. now subst rq.
    + inversion Hin. reflexivity.
  - apply in_or_app. right. now left.
  - intros ->. reflexivity.
  - intros ->. reflexivity.
Qed.

(** C4. When [chat] returns, the tool calls of the response are [None] when
    the provider's output has no function-call block; otherwise they are a
    non-empty list that has, in order, one tool call for each function-call
    block. They are never the empty list. *)
Theorem chat_tool_calls_list_or_null (resp : LLMResponse) (s' : Sys) :
  chat w messages mp tools reuse_history s = (Return resp, s') ->
  exists wire r,
    parse_messages messages = Return wire /\
    answered_by w mp tools (sent_input s reuse_history wire) r /\
    (function_calls (output r) = [] -> resp_tool_calls resp = None) /\
    (function_calls (output r) <> [] ->
     exists calls,
       resp_tool_calls resp = Some calls /\ calls <> [] /\
       List.length calls = List.length (function_calls (output r)) /\
       Forall2 tool_call_of (function_calls (output r)) calls) /\
    resp_tool_calls resp <> Some [].
Proof.
  intros H. apply chat_returns_inv in H.
  destruct H as (wire & pre & k & post & r & content & tool_calls & H).
  cbv zeta in H.
  destruct H as (Hparse & Hsplit & Hpre & Hk & Hdec & -> & _).
  exists wire, r. split; [exact Hparse |]. split; [now exists pre, k, post |].
  apply decode_output_returns in Hdec.
  destruct Hdec as [_ (new & Hnew & Hcalls)]. simpl in Hnew. subst new.
  split; [| split].
  - intros Hnil. rewrite Hnil in Hcalls. inversion Hcalls. reflexivity.
  - intros Hsome. destruct tool_calls as [|tc rest].
    + inversion Hcalls as [Hempty |]. congruence.
    + exists (tc :: rest). simpl. repeat split; try discriminate.
      * symmetry. exact (Forall2_length_eq _ _ _ Hcalls).
      * exact Hcalls.
  - simpl. destruct tool_calls; discriminate.
Qed.

End ResponseClaims.

(** Against C1 as stated: a response with two message blocks, "a" then "b".
    The concatenation over all message blocks is "ab"; the content returned
    is "b". *)
Lemma chat_content_drops_earlier_messages :
  exists resp s',
    chat (Sample.always Sample.two_messages) [Sample.says "user" "hi"]
         (Sample.params "gpt-4o" 3) None true Sample.seeded = (Return resp, s') /\
    join (all_message_texts (output Sample.two_messages)) = "ab" /\
    resp_content resp = "b" /\
    resp_content resp <> join (all_message_texts (output Sample.two_messages)).
Proof.
  eexists. eexists. split; [vm_compute; reflexivity |].
  split; [reflexivity |]. split; [reflexivity | discriminate].
Qed.

(** On that response the content is the text of the last message block. *)
Lemma chat_content_is_last_message_text_witness :
  exists resp s' r,
    chat (Sample.always Sample.two_messages) [Sample.says "user" "hi"]
         (Sample.params "gpt-4o" 3) None true Sample.seeded = (Return resp, s') /\
    resp_content resp = last_message_text (output r) /\
    resp_content resp = "b".
Proof.
  eassert (H : chat (Sample.always Sample.two_messages) [Sample.says "user" "hi"]
                    (Sample.params "gpt-4o" 3) None true Sample.seeded
               = (Return _, _)) by (vm_compute; reflexivity).
  destruct (chat_content_is_last_message_text _ _ _ _ _ _ _ _ H)
    as (wire & r & _ & _ & Hlast & _).
  eexists. eexists. exists r. split; [exact H |]. split; [exact Hlast | reflexivity].
Defined.

(** Two failed attempts, then an answer, without reuse of the history: the
    new history is the one translated message and the two output blocks. *)
Lemma chat_history_after_success_witness :
  exists resp s' wire r,
    chat (Sample.flaky 2 Sample.one_call) [Sample.says "user" "hi"]
         (Sample.params "gpt-4o" 3) None false Sample.seeded = (Return resp, s') /\
    parse_messages [Sample.says "user" "hi"] = Return wire /\
    message_history (self s') = wire ++ map OutputItem (output r) /\
    List.length (message_history (self s')) = 3.
Proof.
  eassert (H : chat (Sample.flaky 2 Sample.one_call) [Sample.says "user" "hi"]
                    (Sample.params "gpt-4o" 3) None false Sample.seeded
               = (Return _, _)) by (vm_compute; reflexivity).
  destruct (chat_history_after_success _ _ _ _ _ _ _ _ H)
    as (wire & r & new & Hparse & _ & _ & _ & _ & Hhist & Hfalse & _).
  rewrite (Hfalse eq_refl) in Hhist.
  eexists. eexists. exists wire, r.
  split; [exact H |]. split; [exact Hparse |]. split; [exact Hhist | reflexivity].
Defined.

(** One function-call block in the answer: one tool call in the response. *)
Lemma chat_tool_calls_list_or_null_witness :
  exists resp s',
    chat (Sample.always Sample.one_call) [Sample.says "user" "hi"]
         (Sample.params "gpt-4o" 3) None true Sample.seeded = (Return resp, s') /\
    resp_tool_calls resp <> Some [] /\
    exists call, resp_tool_calls resp = Some [call].
Proof.
  eassert (H : chat (Sample.always Sample.one_call) [Sample.says "user" "hi"]
                    (Sample.params "gpt-4o" 3) None true Sample.seeded
               = (Return _, _)) by (vm_compute; reflexivity).
  destruct (chat_tool_calls_list_or_null _ _ _ _ _ _ _ _ H)
    as (wire & r & _ & _ & _ & _ & Hne).
  eexists. eexists. split; [exact H |]. split; [exact Hne |].
  eexists. reflexivity.
Defined.

(* ================================================================== *)
(** ** Properties of [chat]: retries and errors *)
(* ================================================================== *)

Section RetryClaims.

Context {J : JsonLib}.

Variable w : World.
Variable messages : list LLMMessage.
Variable mp : ModelParameters.
Variable tools : option (list Tool).
Variable reuse_history : bool.
Variable s : Sys.


Lemma in_split_middle {A} (l pre post : list A) (k : A) :
  l = pre ++ k :: post -> In k l.
Proof. intros ->. apply in_or_app. right. now left. Qed.

Lemma succeeds_not_fails (req : Request) (k : nat) (r : Response) :
  responses_create w k req = Succeeds r -> ~ fails_at w req k.
Proof. intros Hk [str_e Hf]. congruence. Qed.

(** With the messages translated, the outcome of the call is a function of
    the attempts: all fail ... *)
Lemma chat_all_fail (wire : list WireItem) :
  parse_messages messages = Return wire ->
  let req := make_request (sent_input s reuse_history wire) mp tools in
  Forall (fails_at w req) (range (max_retries mp)) ->
  chat w messages mp tools reuse_history s =
  (Raise (ValueError (FAILED_PREFIX +++ diagnostics w req (range (max_retries mp)))),
   log_more s (failed_rounds w req (range (max_retries mp)))).
Proof.
  intros Hparse req Hall.
  pose proof (chat_run w messages mp tools reuse_history s) as R.
  destruct R as [ e Hp
                | wire' req' Hp Hreq Hall'
                | wire' req' pre post k r e Hp Hreq Hsplit Hpre Hk Hdec
                | wire' req' pre post k r c t Hp Hreq Hsplit Hpre Hk Hdec ];
    rewrite Hparse in Hp; try discriminate; inversion Hp; subst wire'; subst req'.
  - reflexivity.
  - exfalso. apply (succeeds_not_fails _ _ _ Hk).
    rewrite Forall_forall in Hall. apply Hall.
    exact (in_split_middle _ _ _ _ Hsplit).
  - exfalso. apply (succeeds_not_fails _ _ _ Hk).
    rewrite Forall_forall in Hall. apply Hall.
    exact (in_split_middle _ _ _ _ Hsplit).
Qed.

(** ... or one is the first to succeed. *)
Lemma chat_first_success (wire : list WireItem) (pre post : list nat)
      (k : nat) (r : Response) :
  parse_messages messages = Return wire ->
  let input := sent_input s reuse_history wire in
  let req := make_request input mp tools in
  range (max_retries mp) = pre ++ k :: post ->
  Forall (fails_at w req) pre ->
  responses_create w k req = Succeeds r ->
  let s1 := with_history
              (log_more s (failed_rounds w req pre ++ [EvCreate req (Succeeds r)]))
              (input ++ map OutputItem (output r)) in
  chat w messages mp tools reuse_history s =
  match decode_output (output r) "" [] with
  | Return (content, tool_calls) =>
      (Return (make_llm_response r content tool_calls),
       recorded s1 (entry_of messages (make_llm_response r content tool_calls)
                             mp tools))
  | Raise e => (Raise e, s1)
  end.
Proof.
  intros Hparse input req Hsplit Hpre Hk s1.
  pose proof (chat_run w messages mp tools reuse_history s) as R.
  destruct R as [ e Hp
                | wire' req' Hp Hreq Hall
                | wire' req' pre' post' k' r' e Hp Hreq Hsplit' Hpre' Hk' Hdec
                | wire' req' pre' post' k' r' c t Hp Hreq Hsplit' Hpre' Hk' Hdec ];
    rewrite Hparse in Hp; try discriminate; inversion Hp; subst wire'; subst req'.
  - exfalso. apply (succeeds_not_fails _ _ _ Hk).
    rewrite Forall_forall in Hall. apply Hall.
    exact (in_split_middle _ _ _ _ Hsplit).
  - destruct (first_success_unique w _ _ _ _ _ _ _ _ _ _
                Hsplit Hpre Hk Hsplit' Hpre' Hk') as (-> & -> & ->).
    now rewrite Hdec.
  - destruct (first_success_unique w _ _ _ _ _ _ _ _ _ _
                Hsplit Hpre Hk Hsplit' Hpre' Hk') as (-> & -> & ->).
    now rewrite Hdec.
Qed.

(** The call returns as soon as the messages translate, an attempt succeeds
    and the arguments of the answer's function calls decode. *)
Lemma chat_returns_when (wire : list WireItem) (r : Response) :
  parse_messages messages = Return wire ->
  answered_by w mp tools (sent_input s reuse_history wire) r ->
  (forall call_id name arguments id,
      In (FunctionCallBlock call_id name arguments id) (output r) ->
      arguments <> "" -> json_loads arguments <> None) ->
  exists resp s',
    chat w messages mp tools reuse_history s = (Return resp, s').
Proof.
  intros Hparse (pre & k & post & Hsplit & Hpre & Hk) Hok.
  rewrite (chat_first_success wire pre post k r Hparse Hsplit Hpre Hk).
  destruct (decode_output_total (output r) Hok "" []) as (c & t & ->).
  now eexists; eexists.
Qed.



End RetryClaims.

Section CallClaims.

Context {J : JsonLib}.

Variable w : World.
Variable messages : list LLMMessage.
Variable mp : ModelParameters.
Variable tools : option (list Tool).
Variable reuse_history : bool.
Variable s : Sys.

(** The two errors of the translation. *)
Lemma parse_message_raises (msg : LLMMessage) (e : Exception) :
  parse_message msg = Raise e ->
  e = ValueError "Message content is required" \/
  e = ValueError ("Invalid message role: " +++ role msg).
Proof.
  unfold parse_message.
  destruct (tool_result msg); [discriminate |].
  destruct (tool_call msg); [discriminate |].
  destruct (negb (opt_truthy (content msg))).
  - intros H. inversion H. now left.
  - destruct (role msg =? "system")%string; [discriminate |].
    destruct (role msg =? "user")%string; [discriminate |].
    destruct (role msg =? "assistant")%string; [discriminate |].
    intros H. inversion H. now right.
Qed.

Lemma parse_messages_from_raises (l : list LLMMessage) :
  forall acc e,
    parse_messages_from acc l = Raise e ->
    e = ValueError "Message content is required" \/
    exists r, e = ValueError ("Invalid message role: " +++ r).
Proof.
  induction l as [|m l IH]; intros acc e H; [discriminate |].
  simpl in H. destruct (parse_message m) as [item|e'] eqn:Hm.
  - exact (IH _ _ H).
  - inversion H; subst. apply parse_message_raises in Hm.
    destruct Hm as [-> | ->]; [now left | right; now eexists].
Qed.

(** C9 (as amended). A call of [chat] that raises does so in one of three
    ways. A translation error (empty content, invalid role) and the
    exhaustion of all retries leave the stored history exactly as it was
    before the call. The history is assigned right after a successful
    provider response and before that response is decomposed: a call that
    raises on malformed tool-call arguments has stored the wire input that
    was sent followed by the provider's output blocks. *)
Theorem chat_history_on_error (e : Exception) (s' : Sys) :
  chat w messages mp tools reuse_history s = (Raise e, s') ->
  (parse_messages messages = Raise e /\
   (e = ValueError "Message content is required" \/
    exists r, e = ValueError ("Invalid message role: " +++ r)) /\
   message_history (self s') = message_history (self s))
  \/
  (exists wire log,
     parse_messages messages = Return wire /\
     Forall (fails_at w (make_request (sent_input s reuse_history wire) mp tools))
            (range (max_retries mp)) /\
     e = ValueError (FAILED_PREFIX +++ log) /\
     message_history (self s') = message_history (self s))
  \/
  (exists wire r doc,
     parse_messages messages = Return wire /\
     answered_by w mp tools (sent_input s reuse_history wire) r /\
     e = JSONDecodeError doc /\ json_loads doc = None /\
     message_history (self s') =
       sent_input s reuse_history wire ++ map OutputItem (output r)).
Proof.
  intros H. apply chat_raises_inv in H.
  destruct H as [[Hparse ->] | [(wire & H) | (wire & pre & k & post & r & H)]];
    try (cbv zeta in H).
  - left. split; [exact Hparse |]. split; [| reflexivity].
    exact (parse_messages_from_raises _ _ _ Hparse).
  - destruct H as (Hparse & Hall & -> & ->).
    right. left. exists wire. eexists. repeat split; eauto.
  - destruct H as (Hparse & Hsplit & Hpre & Hk & Hdec & Hhist & _).
    apply decode_output_raises in Hdec.
    destruct Hdec as (? & ? & doc & ? & _ & _ & Hl & ->).
    right. right. exists wire, r, doc.
    split; [exact Hparse |]. split; [now exists pre, k, post |].
    now repeat split.
Qed.

Lemma request_temperature_spec :
  (request_temperature mp = None <->
   Contains "o3" (model mp) \/ Contains "o4-mini" (model mp)) /\
  (~ (Contains "o3" (model mp) \/ Contains "o4-mini" (model mp)) ->
   request_temperature mp = Some (temperature mp)).
Proof.
  unfold request_temperature. rewrite <- !str_in_iff.
  destruct (str_in "o3" (model mp)), (str_in "o4-mini" (model mp)); simpl;
    split; try split; intros; try reflexivity; try discriminate; auto;
    try (exfalso; tauto); intuition discriminate.
Qed.

(** The requests of a call all carry the same keyword arguments. *)
Lemma chat_requests :
  exists new,
    effects (snd (chat w messages mp tools reuse_history s)) = effects s ++ new /\
    (forall req o, In (EvCreate req o) new ->
       exists wire, parse_messages messages = Return wire /\
                    req = make_request (sent_input s reuse_history wire) mp tools) /\
    (forall wire, parse_messages messages = Return wire ->
                  (0 < max_retries mp)%Z ->
                  exists req o, In (EvCreate req o) new).
Proof.
  pose proof (chat_run w messages mp tools reuse_history s) as R.
  destruct R as [ e Hp
                | wire req Hp Hreq Hall
                | wire req pre post k r e Hp Hreq Hsplit Hpre Hk Hdec
                | wire req pre post k r c t Hp Hreq Hsplit Hpre Hk Hdec ];
    cbn [snd].
  - exists []. rewrite app_nil_r. split; [reflexivity |]. split.
    + intros ? ? [].
    + intros wire Hw. congruence.
  - exists (failed_rounds w req (range (max_retries mp))).
    split; [reflexivity |]. split.
    + intros rq o Hin. apply failed_rounds_requests in Hin. subst rq.
      now exists wire.
    + intros _ _ Hpos. unfold range.
      destruct (Z.to_nat (max_retries mp)) as [|n] eqn:Hn; [lia |].
      simpl seq. rewrite failed_rounds_cons. eexists. eexists. now left.
  - exists (failed_rounds w req pre ++ [EvCreate req (Succeeds r)]).
    rewrite effects_with_history, effects_log_more.
    split; [reflexivity |]. split.
    + intros rq o Hin. apply in_app_or in Hin. destruct Hin as [Hin | [Hin | []]].
      * apply failed_rounds_requests in Hin. subst rq. now exists wire.
      * inversion Hin; subst. now exists wire.
    + intros _ _ _. eexists. eexists. apply in_or_app. right. now left.
  - exists (failed_rounds w req pre ++ [EvCreate req (Succeeds r)]).
    rewrite effects_recorded, effects_with_history, effects_log_more.
    split; [reflexivity |]. split.
    + intros rq o Hin. apply in_app_or in Hin. destruct Hin as [Hin | [Hin | []]].
      * apply failed_rounds_requests in Hin. subst rq. now exists wire.
      * inversion Hin; subst. now exists wire.
    + intros _ _ _. eexists. eexists. apply in_or_app. right. now left.
Qed.

(** C7. Every request that a call of [chat] sends has its temperature not
    given exactly when the model name contains "o3" or contains "o4-mini";
    for every other model name it carries the configured temperature. (A
    request is sent as soon as the messages translate and [max_retries] is
    positive.) *)
Theorem temperature_omitted_iff_o3_o4_mini :
  exists new,
    effects (snd (chat w messages mp tools reuse_history s)) = effects s ++ new /\
    (forall req o, In (EvCreate req o) new ->
       (req_temperature req = None <->
        Contains "o3" (model mp) \/ Contains "o4-mini" (model mp)) /\
       (~ (Contains "o3" (model mp) \/ Contains "o4-mini" (model mp)) ->
        req_temperature req = Some (temperature mp))) /\
    (forall wire, parse_messages messages = Return wire ->
                  (0 < max_retries mp)%Z ->
                  exists req o, In (EvCreate req o) new).
Proof.
  destruct chat_requests as (new & Heff & Hreq & Hsome).
  exists new. split; [exact Heff |]. split; [| exact Hsome].
  intros req o Hin. destruct (Hreq req o Hin) as (wire & _ & ->).
  exact request_temperature_spec.
Qed.

End CallClaims.



(** Against C9 as stated: [chat] raises and the history has changed. *)
Lemma history_changed_on_decode_error :
  exists s',
    chat (Sample.always Sample.broken_call) [Sample.says "user" "hi"]
         (Sample.params "gpt-4o" 3) None true Sample.seeded
    = (Raise (JSONDecodeError "{"), s') /\
    message_history (self Sample.seeded) = [EasyMessage "system" "be brief"] /\
    message_history (self s') =
      [EasyMessage "system" "be brief"; EasyMessage "user" "hi";
       OutputItem (FunctionCallBlock "call_1" "bash" "{" None)] /\
    message_history (self s') <> message_history (self Sample.seeded).
Proof.
  eexists. split; [vm_compute; reflexivity |].
  split; [reflexivity |]. split; [reflexivity | discriminate].
Qed.

(** Every attempt fails: the error is raised and the history is as before. *)
Lemma chat_history_on_error_witness :
  exists e s',
    chat Sample.down [Sample.says "user" "hi"] (Sample.params "gpt-4o" 2)
         None true Sample.seeded = (Raise e, s') /\
    message_history (self s') = message_history (self Sample.seeded).
Proof.
  eassert (H : chat Sample.down [Sample.says "user" "hi"]
                    (Sample.params "gpt-4o" 2) None true Sample.seeded
               = (Raise _, _)) by (vm_compute; reflexivity).
  destruct (chat_history_on_error _ _ _ _ _ _ _ _ H)
    as [(_ & _ & Hh) | [(wire & log & _ & _ & _ & Hh)
                       | (wire & r & doc & _ & _ & He & _)]].
  - eexists. eexists. split; [exact H | exact Hh].
  - eexists. eexists. split; [exact H | exact Hh].
  - discriminate He.
Defined.

(* ================================================================== *)
(** ** Further properties: construction and translation *)
(* ================================================================== *)

Section ConstructionFacts.

Context {J : JsonLib}.

(** X1. Construction of the client. A configured API key that is not empty
    is used as it is, whatever the environment holds; with an empty
    configured key the value of OPENAI_API_KEY is used; with neither (the
    variable unset or empty) construction raises the missing-key
    [ValueError]. A constructed client never holds an empty key, takes its
    base URL from OPENAI_BASE_URL whenever that variable is set (the
    configured URL otherwise), and starts with an empty history. *)
Theorem init_key_and_base_url (api_key : string) (base_url : option string)
        (recorder : option (list TrajectoryEntry)) (environ : Environ) :
  (api_key <> "" ->
   exists c, init api_key base_url recorder environ = Return c /\
             c_api_key c = api_key) /\
  (api_key = "" ->
   forall k, environ "OPENAI_API_KEY" = Some k -> k <> "" ->
   exists c, init api_key base_url recorder environ = Return c /\
             c_api_key c = k) /\
  (api_key = "" ->
   environ "OPENAI_API_KEY" = None \/ environ "OPENAI_API_KEY" = Some "" ->
   init api_key base_url recorder environ = Raise (ValueError MISSING_KEY)) /\
  (forall c, init api_key base_url recorder environ = Return c ->
     c_api_key c <> "" /\
     c_base_url c = match environ "OPENAI_BASE_URL" with
                    | Some url => Some url
                    | None => base_url
                    end /\
     message_history (c_self c) = [] /\
     trajectory_recorder (c_self c) = recorder).
Proof.
  unfold init, getenv. split; [| split; [| split]].
  - intros Hne. assert (E : (api_key =? "")%string = false)
      by now apply String.eqb_neq.
    cbv zeta. rewrite E. cbv iota. rewrite E.
    eexists. split; reflexivity.
  - intros -> k Hk Hne. simpl. rewrite Hk.
    destruct (String.eqb_spec k ""); [contradiction |].
    eexists. split; reflexivity.
  - intros -> [Hk | Hk]; simpl; rewrite Hk; reflexivity.
  - intros c H.
    destruct (String.eqb_spec api_key "") as [-> | Hne].
    + destruct (environ "OPENAI_API_KEY") as [k|]; [| discriminate].
      destruct (String.eqb_spec k ""); [discriminate |].
      inversion H; subst. simpl. now repeat split.
    + destruct (String.eqb_spec api_key ""); [contradiction |].
      inversion H; subst. simpl. now repeat split.
Qed.

(** X2. [set_chat_history] is all or nothing. When the messages translate,
    the stored history becomes exactly their translation, whatever it was
    before; when one of them is invalid the call raises and the client is
    left as it was. Either way nothing is sent and the recorder is not
    touched. *)
Theorem set_chat_history_all_or_nothing (messages : list LLMMessage) (s : Sys) :
  effects (snd (set_chat_history messages s)) = effects s /\
  trajectory_recorder (self (snd (set_chat_history messages s)))
  = trajectory_recorder (self s) /\
  (forall wire,
     parse_messages messages = Return wire ->
     fst (set_chat_history messages s) = Return tt /\
     message_history (self (snd (set_chat_history messages s))) = wire) /\
  (forall e,
     parse_messages messages = Raise e ->
     set_chat_history messages s = (Raise e, s)).
Proof.
  unfold set_chat_history, bind, lift, set_message_history.
  destruct (parse_messages messages) as [wire|e]; simpl.
  - split; [reflexivity |]. split; [reflexivity |]. split.
    + intros wire' H. inversion H; subst. now split.
    + intros e H. discriminate.
  - split; [reflexivity |]. split; [reflexivity |]. split.
    + intros wire H. discriminate.
    + intros e' H. inversion H; subst. reflexivity.
Qed.

Lemma parse_messages_cons (m : LLMMessage) (l : list LLMMessage) :
  parse_messages (m :: l) =
  match parse_message m with
  | Return item =>
      match parse_messages l with
      | Return items => Return (item :: items)
      | Raise e => Raise e
      end
  | Raise e => Raise e
  end.
Proof.
  unfold parse_messages. simpl.
  destruct (parse_message m) as [item|e]; [| reflexivity].
  now rewrite parse_messages_from_acc.
Qed.

Lemma parse_message_not_output (m : LLMMessage) (item : WireItem) :
  parse_message m = Return item -> is_output_item item = false.
Proof.
  unfold parse_message.
  destruct (tool_result m); [intros H; now inversion H |].
  destruct (tool_call m); [intros H; now inversion H |].
  destruct (negb (opt_truthy (content m))); [discriminate |].
  destruct (role m =? "system")%string; [intros H; now inversion H |].
  destruct (role m =? "user")%string; [intros H; now inversion H |].
  destruct (role m =? "assistant")%string; [intros H; now inversion H |].
  discriminate.
Qed.

(** X3. A successful translation has exactly one input item per message, in
    the order of the messages, each the translation of its message; none of
    them is a provider output block. *)
Theorem parse_messages_one_item_per_message (messages : list LLMMessage)
        (wire : list WireItem) :
  parse_messages messages = Return wire ->
  List.length wire = List.length messages /\
  Forall2 (fun m item => parse_message m = Return item) messages wire /\
  forallb (fun item => negb (is_output_item item)) wire = true.
Proof.
  revert wire. induction messages as [|m l IH]; intros wire H.
  - inversion H; subst. repeat split. constructor.
  - rewrite parse_messages_cons in H.
    destruct (parse_message m) as [item|e] eqn:Hm; [| discriminate].
    destruct (parse_messages l) as [items|e]; [| discriminate].
    inversion H; subst. destruct (IH items eq_refl) as (Hlen & Hall & Hout).
    split; [simpl; now rewrite Hlen |]. split; [now constructor |].
    simpl. now rewrite (parse_message_not_output m item Hm), Hout.
Qed.

(** X4. Translation distributes over concatenation: the translation of
    [a ++ b] is the translation of [a] followed by that of [b]; it raises
    the error of [a] when [a] does not translate, and otherwise the error
    of [b]. *)
Theorem parse_messages_app (a b : list LLMMessage) :
  parse_messages (a ++ b) =
  match parse_messages a with
  | Raise e => Raise e
  | Return wire_a =>
      match parse_messages b with
      | Return wire_b => Return (wire_a ++ wire_b)
      | Raise e => Raise e
      end
  end.
Proof.
  unfold parse_messages. rewrite parse_messages_from_app.
  destruct (parse_messages_from [] a) as [wire_a|e]; [| reflexivity].
  now rewrite parse_messages_from_acc.
Qed.

Lemma parse_message_raises_why (m : LLMMessage) (e : Exception) :
  parse_message m = Raise e ->
  tool_call m = None /\ tool_result m = None /\
  ((opt_truthy (content m) = false /\
    e = ValueError "Message content is required") \/
   (opt_truthy (content m) = true /\ ~ valid_role (role m) /\
    e = ValueError ("Invalid message role: " +++ role m))).
Proof.
  unfold parse_message.
  destruct (tool_result m); [discriminate |].
  destruct (tool_call m); [discriminate |].
  destruct (opt_truthy (content m)); simpl.
  - destruct (String.eqb_spec (role m) "system"); [discriminate |].
    destruct (String.eqb_spec (role m) "user"); [discriminate |].
    destruct (String.eqb_spec (role m) "assistant"); [discriminate |].
    intros H. inversion H. repeat split. right. repeat split.
    unfold valid_role. tauto.
  - intros H. inversion H. repeat split. now left.
Qed.

(** X5. When the translation raises, the error is that of the first message
    that does not translate: the messages before it translate, it carries
    neither a tool call nor a tool result, and the error is "Message content
    is required" when its content is absent or empty (whatever its role),
    and "Invalid message role: " followed by the role otherwise. *)
Theorem parse_messages_first_error (messages : list LLMMessage) (e : Exception) :
  parse_messages messages = Raise e ->
  exists before m after wire,
    messages = before ++ m :: after /\
    parse_messages before = Return wire /\
    tool_call m = None /\ tool_result m = None /\
    ((opt_truthy (content m) = false /\
      e = ValueError "Message content is required") \/
     (opt_truthy (content m) = true /\ ~ valid_role (role m) /\
      e = ValueError ("Invalid message role: " +++ role m))).
Proof.
  induction messages as [|m l IH]; intros H; [discriminate |].
  rewrite parse_messages_cons in H.
  destruct (parse_message m) as [item|e'] eqn:Hm.
  - destruct (parse_messages l) as [items|e'] eqn:Hl; [discriminate |].
    inversion H; subst e'.
    destruct (IH eq_refl) as (before & m' & after & wire & -> & Hb & Hrest).
    exists (m :: before), m', after, (item :: wire).
    split; [reflexivity |]. split; [| exact Hrest].
    now rewrite parse_messages_cons, Hm, Hb.
  - inversion H; subst e'. exists [], m, l, [].
    split; [reflexivity |]. split; [reflexivity |].
    now apply parse_message_raises_why.
Qed.

End ConstructionFacts.

(** The third message has an invalid role and an empty content: its error
    is raised, and it is the content error. *)
Lemma parse_messages_first_error_witness :
  exists before m after wire,
    [Sample.says "system" "s"; Sample.says "user" "u";
     Sample.says "tool" ""; Sample.says "oops" "x"] = before ++ m :: after /\
    parse_messages before = Return wire /\
    tool_call m = None /\ tool_result m = None.
Proof.
  destruct (parse_messages_first_error
              [Sample.says "system" "s"; Sample.says "user" "u";
               Sample.says "tool" ""; Sample.says "oops" "x"]
              (ValueError "Message content is required") eq_refl)
    as (before & m & after & wire & Hsplit & Hbefore & Htc & Htr & _).
  now exists before, m, after, wire.
Defined.

(** Two messages, two items. *)
Lemma parse_messages_one_item_per_message_witness :
  exists wire,
    parse_messages [Sample.says "user" "hi"; Sample.tool_output Sample.result_nothing]
    = Return wire /\
    List.length wire = 2.
Proof.
  eexists. split; [reflexivity |].
  exact (proj1 (parse_messages_one_item_per_message
                  [Sample.says "user" "hi"; Sample.tool_output Sample.result_nothing]
                  _ eq_refl)).
Defined.

Section TextFacts.

Lemma all_space_app (a b : string) :
  all_space (a +++ b) = all_space a && all_space b.
Proof.
  induction a as [|c a IH]; simpl; [reflexivity |].
  now rewrite IH, andb_assoc.
Qed.

Lemma lstrip_empty_iff (s : string) : lstrip s = "" <-> all_space s = true.
Proof.
  induction s as [|c s IH]; simpl; [tauto |].
  destruct (isspace c); simpl; [exact IH |]. split; discriminate.
Qed.

Lemma rstrip_empty_iff (s : string) : rstrip s = "" <-> all_space s = true.
Proof.
  induction s as [|c s IH]; simpl; [tauto |].
  destruct (rstrip s) as [|d kept].
  - destruct (isspace c); simpl.
    + split; [intros _; now apply IH | reflexivity].
    + split; discriminate.
  - split; [discriminate |]. intros H. apply andb_true_iff in H.
    destruct H as [_ H]. apply IH in H. discriminate.
Qed.

Lemma strip_empty_iff (s : string) : strip s = "" <-> all_space s = true.
Proof.
  unfold strip. rewrite rstrip_empty_iff.
  destruct (lstrip_split s) as (pre & Hpre & Hs).
  rewrite Hs at 2. rewrite all_space_app, Hpre. simpl. tauto.
Qed.

Lemma rstrip_cons_nonspace (c : ascii) (s : string) :
  isspace c = false -> rstrip (String c s) = String c (rstrip s).
Proof. intros H. simpl. destruct (rstrip s); [now rewrite H | reflexivity]. Qed.

(** X6. Edge cases of the text of a tool result. The text is empty exactly
    when there is no error string (absent or empty) and the payload is
    absent or all whitespace. With an error string and no payload the text
    starts with "Error:": the newline of the separator is stripped. *)
Theorem tool_result_text_edges (tr : ToolResult) :
  (tool_result_content tr = "" <->
   opt_truthy (tr_error tr) = false /\
   all_space (payload_text (tr_result tr)) = true) /\
  (tr_result tr = None -> opt_truthy (tr_error tr) = true ->
   exists rest, tool_result_content tr = "Error:" +++ rest).
Proof.
  rewrite tool_result_content_eq. unfold serialized_output, error_text. split.
  - rewrite strip_empty_iff, all_space_app.
    destruct (opt_truthy (tr_error tr)).
    + unfold ERROR_SEPARATOR. rewrite all_space_app. simpl.
      rewrite andb_false_r. split; [discriminate | intros [H _]; discriminate].
    + simpl. rewrite andb_true_r. tauto.
  - intros -> ->. unfold ERROR_SEPARATOR, strip. simpl lstrip.
    change (lstrip (String "010" ("Error: " +++
              match tr_error tr with Some e => e | None => "" end)))
      with (String "E" (String "r" (String "r" (String "o" (String "r"
             (String ":" (" " +++
                match tr_error tr with Some e => e | None => "" end))))))).
    rewrite !rstrip_cons_nonspace by reflexivity.
    eexists. reflexivity.
Qed.

Lemma contains_trans (a b c : string) :
  Contains a b -> Contains b c -> Contains a c.
Proof.
  intros (p1 & q1 & ->) (p2 & q2 & ->).
  exists (p2 +++ p1), (q1 +++ q2). now rewrite !append_assoc.
Qed.

Lemma str_in_trans (a b c : string) :
  str_in a b = true -> str_in b c = true -> str_in a c = true.
Proof. rewrite !str_in_iff. apply contains_trans. Qed.

(** X7. The capability table has two entries that never decide: a name that
    contains "gpt-4o-mini" contains "gpt-4o", and one that contains
    "o3-mini" contains "o3". So [supports_tool_calling] is the test against
    the seven remaining entries, guarded by the "o1-mini" exclusion. Every
    model for which the temperature is not sent supports tool calling,
    unless its name contains "o1-mini". *)
Theorem tool_capable_table_reduced (mp : ModelParameters) :
  supports_tool_calling mp =
    negb (str_in "o1-mini" (model mp)) &&
    existsb (fun entry => str_in entry (model mp)) tool_capable_families /\
  (request_temperature mp = None -> str_in "o1-mini" (model mp) = false ->
   supports_tool_calling mp = true).
Proof.
  assert (H4o : str_in "gpt-4o-mini" (model mp) = true ->
                str_in "gpt-4o" (model mp) = true).
  { apply str_in_trans. reflexivity. }
  assert (Ho3 : str_in "o3-mini" (model mp) = true ->
                str_in "o3" (model mp) = true).
  { apply str_in_trans. reflexivity. }
  unfold supports_tool_calling, request_temperature, tool_capable_models,
    tool_capable_families, existsb.
  destruct (str_in "gpt-4o" (model mp)), (str_in "gpt-4o-mini" (model mp));
    try (specialize (H4o eq_refl); discriminate);
    destruct (str_in "o3" (model mp)), (str_in "o3-mini" (model mp));
    try (specialize (Ho3 eq_refl); discriminate);
    destruct (str_in "o1-mini" (model mp)), (str_in "o4-mini" (model mp));
    simpl; rewrite ?orb_true_r; simpl;
    (split; [reflexivity | intros; try reflexivity; try discriminate]).
Qed.

End TextFacts.

(* ================================================================== *)
(** ** Further properties: one call of [chat] *)
(* ================================================================== *)

Section CallFacts.

Context {J : JsonLib}.

Variable w : World.
Variable messages : list LLMMessage.
Variable mp : ModelParameters.
Variable tools : option (list Tool).
Variable reuse_history : bool.
Variable s : Sys.

Lemma recorder_with_history (s0 : Sys) (h : list WireItem) :
  trajectory_recorder (self (with_history s0 h)) = trajectory_recorder (self s0).
Proof. reflexivity. Qed.

Lemma recorder_log_more (s0 : Sys) (evs : list Event) :
  trajectory_recorder (self (log_more s0 evs)) = trajectory_recorder (self s0).
Proof. reflexivity. Qed.

Lemma recorder_recorded (s0 : Sys) (entry : TrajectoryEntry) :
  trajectory_recorder (self (recorded s0 entry)) =
  match trajectory_recorder (self s0) with
  | Some entries => Some (entries ++ [entry])
  | None => None
  end.
Proof.
  unfold recorded, record_llm_interaction.
  destruct (trajectory_recorder (self s0)) eqn:E; simpl; [reflexivity | exact E].
Qed.

(** A translation error ends the call at once. *)
Lemma chat_invalid (e : Exception) :
  parse_messages messages = Raise e ->
  chat w messages mp tools reuse_history s = (Raise e, s).
Proof.
  intros Hparse. unfold chat, bind at 1, lift. now rewrite Hparse.
Qed.

(** X8. The tools of a request. Every request that [chat] sends has its
    tools not given exactly when the caller passed no tools ([None] or an
    empty list); otherwise it carries one function declaration per tool, in
    the order of the tools, with the tool's name, description and input
    schema, and with [strict] set. *)
Theorem chat_request_tools :
  exists new,
    effects (snd (chat w messages mp tools reuse_history s)) = effects s ++ new /\
    forall req o, In (EvCreate req o) new ->
      (req_tools req = None <-> tools = None \/ tools = Some []) /\
      (forall ts, tools = Some ts -> ts <> [] ->
         exists schemas,
           req_tools req = Some schemas /\
           List.length schemas = List.length ts /\
           map ftp_name schemas = map tool_name ts /\
           map ftp_description schemas = map tool_description ts /\
           map ftp_parameters schemas = map tool_input_schema ts /\
           forallb ftp_strict schemas = true).
Proof.
  destruct (chat_requests w messages mp tools reuse_history s)
    as (new & Heff & Hreq & _).
  exists new. split; [exact Heff |].
  intros req o Hin. destruct (Hreq req o Hin) as (wire & _ & ->).
  simpl req_tools. unfold request_tools. split.
  - destruct tools as [[|t ts]|]; split; auto; try discriminate.
    intros [H | H]; discriminate.
  - intros ts -> Hne. destruct ts as [|t ts]; [contradiction |].
    exists (map tool_schema (t :: ts)). split; [reflexivity |].
    rewrite length_map, !map_map. repeat split.
    rewrite forallb_forall. intros x Hx. apply in_map_iff in Hx.
    destruct Hx as (t' & <- & _). reflexivity.
Qed.

(** X9. Every attempt of one call sends the same request: the retries
    resend the same input, tools and temperature, and each request names
    the configured model, [top_p], and [max_tokens] as its
    [max_output_tokens]. *)
Theorem chat_requests_identical :
  exists new same,
    effects (snd (chat w messages mp tools reuse_history s)) = effects s ++ new /\
    forall req o, In (EvCreate req o) new ->
      req = same /\
      req_model req = model mp /\
      req_top_p req = top_p mp /\
      req_max_output_tokens req = max_tokens mp.
Proof.
  destruct (chat_requests w messages mp tools reuse_history s)
    as (new & Heff & Hreq & _).
  destruct (parse_messages messages) as [wire|e] eqn:Hparse.
  - exists new, (make_request (sent_input s reuse_history wire) mp tools).
    split; [exact Heff |]. intros req o Hin.
    destruct (Hreq req o Hin) as (wire' & Hw & ->).
    inversion Hw; subst. now repeat split.
  - exists new, (make_request [] mp tools). split; [exact Heff |].
    intros req o Hin. destruct (Hreq req o Hin) as (wire' & Hw & _).
    discriminate.
Qed.

(** What a returning call leaves, recorder included. *)
Lemma chat_returns_state (resp : LLMResponse) (s' : Sys) :
  chat w messages mp tools reuse_history s = (Return resp, s') ->
  exists wire r evs,
    parse_messages messages = Return wire /\
    answered_by w mp tools (sent_input s reuse_history wire) r /\
    (exists content tool_calls, resp = make_llm_response r content tool_calls) /\
    s' = recorded
           (with_history (log_more s evs)
              (sent_input s reuse_history wire ++ map OutputItem (output r)))
           (entry_of messages resp mp tools).
Proof.
  intros H. pose proof (chat_run w messages mp tools reuse_history s) as R.
  rewrite H in R.
  inversion R as [ | | | wire req pre post k r content tool_calls
                         Hparse Hreq Hsplit Hpre Hk Hdec Hresp]; subst.
  exists wire, r. eexists. split; [exact Hparse |].
  split; [now exists pre, k, post |]. split; [now eexists; eexists |].
  reflexivity.
Qed.

(** X10. The metadata of a returned response come from the provider's answer
    unchanged: the model, the status (as the finish reason), and the usage,
    which is [None] exactly when the answer has no usage section, and
    otherwise carries its input, output, cached and reasoning token
    counts. *)
Theorem chat_response_metadata (resp : LLMResponse) (s' : Sys) :
  chat w messages mp tools reuse_history s = (Return resp, s') ->
  exists wire r,
    parse_messages messages = Return wire /\
    answered_by w mp tools (sent_input s reuse_history wire) r /\
    resp_model resp = response_model r /\
    resp_finish_reason resp = status r /\
    (resp_usage resp = None <-> usage r = None) /\
    (forall u, usage r = Some u ->
       resp_usage resp =
       Some {| input_tokens := ru_input_tokens u;
               output_tokens := ru_output_tokens u;
               cache_read_input_tokens := ru_cached_tokens u;
               reasoning_tokens := ru_reasoning_tokens u |}).
Proof.
  intros H. apply chat_returns_state in H.
  destruct H as (wire & r & evs & Hparse & Hans & (c & t & ->) & _).
  exists wire, r. split; [exact Hparse |]. split; [exact Hans |].
  simpl. split; [reflexivity |]. split; [reflexivity |]. split.
  - destruct (usage r); simpl; split; intros; congruence.
  - intros u ->. reflexivity.
Qed.

(** X11. A call that returns records its exchange exactly once: a client
    with a recorder gets one more entry, appended after the earlier ones,
    holding the messages as the caller gave them, the response that is
    returned, the provider name "openai", the model and the tools; a client
    without a recorder stays without one. *)
Theorem chat_records_interaction (resp : LLMResponse) (s' : Sys) :
  chat w messages mp tools reuse_history s = (Return resp, s') ->
  trajectory_recorder (self s') =
  match trajectory_recorder (self s) with
  | Some entries =>
      Some (entries ++ [{| te_messages := messages; te_response := resp;
                           te_provider := "openai"; te_model := model mp;
                           te_tools := tools |}])
  | None => None
  end.
Proof.
  intros H. apply chat_returns_state in H.
  destruct H as (wire & r & evs & _ & _ & _ & ->).
  rewrite recorder_recorded, recorder_with_history, recorder_log_more.
  reflexivity.
Qed.

(** X12. A call that raises records nothing: whatever the error, the
    recorder holds what it held before the call. *)
Theorem chat_error_keeps_recorder (e : Exception) (s' : Sys) :
  chat w messages mp tools reuse_history s = (Raise e, s') ->
  trajectory_recorder (self s') = trajectory_recorder (self s).
Proof.
  intros H. pose proof (chat_run w messages mp tools reuse_history s) as R.
  rewrite H in R. inversion R; subst; reflexivity.
Qed.

(** X13. Invalid messages are refused before the provider is contacted: when
    the translation raises, [chat] raises the same error, sends no request,
    does not sleep, and leaves the client (history and recorder) as it
    was. *)
Theorem chat_invalid_messages_send_nothing (e : Exception) :
  parse_messages messages = Raise e ->
  chat w messages mp tools reuse_history s = (Raise e, s) /\
  count_creates (effects (snd (chat w messages mp tools reuse_history s)))
  = count_creates (effects s) /\
  count_sleeps (effects (snd (chat w messages mp tools reuse_history s)))
  = count_sleeps (effects s).
Proof.
  intros Hparse. rewrite (chat_invalid e Hparse). now repeat split.
Qed.

(** X14. With [max_retries] zero or negative the provider is never called:
    once the messages translate, [chat] raises the retries-exhausted error
    with an empty list of diagnostics, and leaves the client and the log as
    they were. *)
Theorem chat_without_attempts_raises (wire : list WireItem) :
  parse_messages messages = Return wire ->
  (max_retries mp <= 0)%Z ->
  chat w messages mp tools reuse_history s =
  (Raise (ValueError FAILED_PREFIX), s).
Proof.
  intros Hparse Hle.
  assert (Hrange : range (max_retries mp) = []).
  { unfold range. replace (Z.to_nat (max_retries mp)) with 0 by lia. reflexivity. }
  rewrite (chat_all_fail w messages mp tools reuse_history s wire Hparse);
    rewrite Hrange; [| constructor].
  change (diagnostics w (make_request (sent_input s reuse_history wire) mp tools) [])
    with "".
  change (failed_rounds w (make_request (sent_input s reuse_history wire) mp tools) [])
    with (@nil Event).
  now rewrite append_empty_r, log_more_nil.
Qed.


End CallFacts.

(* ================================================================== *)
(** ** Further properties: calls in sequence and round trips *)
(* ================================================================== *)

Section SequenceFacts.

Context {J : JsonLib}.

(** X16. Two calls in a row. When a call has returned and the next call
    reuses the history, every request of the next call carries what the
    first call sent, then the output blocks the provider answered, then the
    translation of the new messages; the history after the second call is
    that input followed by the output blocks of the second call's answer,
    the response of the first attempt of the second call that succeeds on
    that input. *)
Theorem chat_next_call_sees_previous
        (w1 w2 : World) (m1 m2 : list LLMMessage) (mp1 mp2 : ModelParameters)
        (t1 t2 : option (list Tool)) (reuse1 : bool) (s s1 s2 : Sys)
        (resp1 resp2 : LLMResponse) :
  chat w1 m1 mp1 t1 reuse1 s = (Return resp1, s1) ->
  chat w2 m2 mp2 t2 true s1 = (Return resp2, s2) ->
  exists wire1 r1 wire2 r2 new,
    parse_messages m1 = Return wire1 /\
    parse_messages m2 = Return wire2 /\
    answered_by w1 mp1 t1 (sent_input s reuse1 wire1) r1 /\
    answered_by w2 mp2 t2
      (sent_input s reuse1 wire1 ++ map OutputItem (output r1) ++ wire2) r2 /\
    effects s2 = effects s1 ++ new /\
    (forall req o, In (EvCreate req o) new ->
       req_input req =
       sent_input s reuse1 wire1 ++ map OutputItem (output r1) ++ wire2) /\
    In (EvCreate
          (make_request
             (sent_input s reuse1 wire1 ++ map OutputItem (output r1) ++ wire2)
             mp2 t2)
          (Succeeds r2)) new /\
    message_history (self s2) =
      sent_input s reuse1 wire1 ++ map OutputItem (output r1) ++ wire2
      ++ map OutputItem (output r2).
Proof.
  intros H1 H2. apply chat_returns_inv in H1. apply chat_returns_inv in H2.
  destruct H1 as (wire1 & pre1 & k1 & post1 & r1 & c1 & tc1 & H1).
  destruct H2 as (wire2 & pre2 & k2 & post2 & r2 & c2 & tc2 & H2).
  cbv zeta in H1, H2.
  destruct H1 as (Hp1 & Hs1 & Hf1 & Hk1 & _ & _ & Hh1 & _).
  destruct H2 as (Hp2 & Hs2 & Hf2 & Hk2 & _ & _ & Hh2 & He2).
  assert (Hin2 : sent_input s1 true wire2 =
                 sent_input s reuse1 wire1 ++ map OutputItem (output r1) ++ wire2).
  { unfold sent_input at 1. rewrite Hh1. now rewrite <- app_assoc. }
  rewrite Hin2 in *.
  exists wire1, r1, wire2, r2. eexists.
  split; [exact Hp1 |]. split; [exact Hp2 |].
  split; [now exists pre1, k1, post1 |].
  split; [now exists pre2, k2, post2 |].
  split; [exact He2 |]. split; [| split].
  - intros req o Hin. apply in_app_or in Hin. destruct Hin as [Hin | [Hin | []]].
    + apply failed_rounds_requests in Hin. now subst req.
    + now inversion Hin; subst.
  - apply in_or_app. right. now left.
  - rewrite Hh2. now rewrite <- !app_assoc.
Qed.

(** X17. A call that does not reuse the history does not depend on it. Two
    clients that differ only in their stored history get the same result
    from the same call and send the same requests; and as soon as an
    attempt succeeds they end in the same state: what they had stored is
    gone, the new history being this call's input and output only. *)
Theorem chat_without_reuse_ignores_history
        (w : World) (messages : list LLMMessage) (mp : ModelParameters)
        (tools : option (list Tool)) (h1 h2 : list WireItem)
        (recorder : option (list TrajectoryEntry)) (log : list Event) :
  let out1 := chat w messages mp tools false (client_with h1 recorder log) in
  let out2 := chat w messages mp tools false (client_with h2 recorder log) in
  fst out1 = fst out2 /\
  effects (snd out1) = effects (snd out2) /\
  trajectory_recorder (self (snd out1)) = trajectory_recorder (self (snd out2)) /\
  (forall wire r,
     parse_messages messages = Return wire ->
     answered_by w mp tools wire r ->
     snd out1 = snd out2 /\
     message_history (self (snd out1)) = wire ++ map OutputItem (output r)).
Proof.
  intros out1 out2. subst out1 out2.
  destruct (parse_messages messages) as [wire|e] eqn:Hparse.
  - set (req := make_request wire mp tools).
    assert (Hsucc : forall pre k post r,
               range (max_retries mp) = pre ++ k :: post ->
               Forall (fails_at w req) pre ->
               responses_create w k req = Succeeds r ->
               fst (chat w messages mp tools false (client_with h1 recorder log))
               = fst (chat w messages mp tools false (client_with h2 recorder log)) /\
               snd (chat w messages mp tools false (client_with h1 recorder log))
               = snd (chat w messages mp tools false (client_with h2 recorder log)) /\
               message_history
                 (self (snd (chat w messages mp tools false
                                  (client_with h1 recorder log))))
               = wire ++ map OutputItem (output r)).
    { intros pre k post r Hsplit Hpre Hk.
      rewrite (chat_first_success w messages mp tools false
                 (client_with h1 recorder log) wire pre post k r Hparse Hsplit Hpre Hk).
      rewrite (chat_first_success w messages mp tools false
                 (client_with h2 recorder log) wire pre post k r Hparse Hsplit Hpre Hk).
      destruct (decode_output (output r) "" []) as [[c t]|e]; cbn [fst snd].
      - split; [reflexivity |]. split; [reflexivity |].
        now rewrite history_recorded, history_with_history.
      - split; [reflexivity |]. split; [reflexivity |].
        now rewrite history_with_history. }
    destruct (attempts_dichotomy w req (range (max_retries mp)))
      as [Hall | (pre & k & post & r & Hsplit & Hpre & Hk)].
    + rewrite (chat_all_fail w messages mp tools false
                 (client_with h1 recorder log) wire Hparse Hall).
      rewrite (chat_all_fail w messages mp tools false
                 (client_with h2 recorder log) wire Hparse Hall).
      cbn [fst snd]. split; [reflexivity |]. split; [reflexivity |].
      split; [reflexivity |].
      intros wire' r Hw (pre & k & post & Hsplit & Hpre & Hk).
      inversion Hw; subst wire'. exfalso.
      apply (succeeds_not_fails w req k r Hk).
      rewrite Forall_forall in Hall. apply Hall.
      exact (in_split_middle _ _ _ _ Hsplit).
    + destruct (Hsucc pre k post r Hsplit Hpre Hk) as (Hfst & Hsnd & _).
      split; [exact Hfst |]. rewrite Hsnd. split; [reflexivity |].
      split; [reflexivity |].
      intros wire' r' Hw (pre' & k' & post' & Hsplit' & Hpre' & Hk').
      inversion Hw; subst wire'.
      destruct (Hsucc pre' k' post' r' Hsplit' Hpre' Hk') as (_ & _ & Hh).
      split; [reflexivity |]. rewrite <- Hsnd. exact Hh.
  - rewrite !(chat_invalid w messages mp tools false _ e Hparse). cbn [fst snd].
    split; [reflexivity |]. split; [reflexivity |]. split; [reflexivity |].
    intros wire r Hw. discriminate.
Qed.

(** X18. A seeded history is what the provider sees. After
    [set_chat_history seed], a returning call that reuses the history sends,
    in every request, the translation of the seed followed by the
    translation of the new messages, whatever the client had stored before
    the seeding; the history then holds both, followed by the output blocks
    of the answer, the response of the first attempt that succeeds on that
    input. *)
Theorem seeded_history_is_sent
        (w : World) (seed messages : list LLMMessage) (mp : ModelParameters)
        (tools : option (list Tool)) (s s' : Sys) (wseed : list WireItem)
        (resp : LLMResponse) :
  parse_messages seed = Return wseed ->
  chat w messages mp tools true (snd (set_chat_history seed s)) = (Return resp, s') ->
  exists wire r new,
    parse_messages messages = Return wire /\
    answered_by w mp tools (wseed ++ wire) r /\
    effects s' = effects s ++ new /\
    (forall req o, In (EvCreate req o) new -> req_input req = wseed ++ wire) /\
    In (EvCreate (make_request (wseed ++ wire) mp tools) (Succeeds r)) new /\
    message_history (self s') = wseed ++ wire ++ map OutputItem (output r).
Proof.
  intros Hseed H.
  assert (Hs : snd (set_chat_history seed s) = with_history s wseed).
  { unfold set_chat_history, bind, lift. now rewrite Hseed. }
  rewrite Hs in H. apply chat_returns_inv in H.
  destruct H as (wire & pre & k & post & r & c & tc & H). cbv zeta in H.
  destruct H as (Hp & Hsplit & Hpre & Hk & _ & _ & Hh & He).
  change (sent_input (with_history s wseed) true wire) with (wseed ++ wire) in *.
  exists wire, r. eexists. split; [exact Hp |].
  split; [now exists pre, k, post |].
  split; [rewrite He, effects_with_history; reflexivity |]. split; [| split].
  - intros req o Hi. apply in_app_or in Hi. destruct Hi as [Hi | [Hi | []]].
    + apply failed_rounds_requests in Hi. now subst req.
    + now inversion Hi; subst.
  - apply in_or_app. right. now left.
  - rewrite Hh. now rewrite <- app_assoc.
Qed.

Lemma parse_tool_call_messages (calls : list ToolCall) :
  parse_messages (map tool_call_message calls) = Return (map parse_tool_call calls).
Proof.
  induction calls as [|tc calls IH]; [reflexivity |].
  simpl map. rewrite parse_messages_cons, IH. reflexivity.
Qed.

Lemma tool_calls_keep_call (blocks : list OutputBlock) (calls : list ToolCall) :
  Forall2 tool_call_of blocks calls ->
  map item_call (map parse_tool_call calls) = map block_call blocks.
Proof.
  induction 1 as [|b tc blocks calls Hb _ IH]; [reflexivity |].
  simpl. rewrite IH. f_equal.
  destruct b as [call_id name arguments id | |]; simpl in Hb; [| contradiction ..].
  destruct Hb as (-> & -> & _). reflexivity.
Qed.

(** X19. Call ids survive the round trip. The tool calls of a returned
    response, sent back as tool-call messages, translate without error into
    function-call items that carry, in the same order, the call id and the
    name of the provider's function-call blocks. *)
Theorem tool_calls_round_trip
        (w : World) (messages : list LLMMessage) (mp : ModelParameters)
        (tools : option (list Tool)) (reuse_history : bool) (s s' : Sys)
        (resp : LLMResponse) :
  chat w messages mp tools reuse_history s = (Return resp, s') ->
  exists wire r,
    parse_messages messages = Return wire /\
    answered_by w mp tools (sent_input s reuse_history wire) r /\
    forall calls,
      resp_tool_calls resp = Some calls ->
      parse_messages (map tool_call_message calls)
      = Return (map parse_tool_call calls) /\
      map item_call (map parse_tool_call calls)
      = map block_call (function_calls (output r)).
Proof.
  intros H. apply chat_returns_inv in H.
  destruct H as (wire & pre & k & post & r & c & tcs & H). cbv zeta in H.
  destruct H as (Hp & Hsplit & Hpre & Hk & Hdec & -> & _).
  exists wire, r. split; [exact Hp |]. split; [now exists pre, k, post |].
  intros calls Hcalls. split; [apply parse_tool_call_messages |].
  apply decode_output_returns in Hdec. destruct Hdec as [_ (new & Hnew & Hall)].
  simpl in Hnew. subst new. apply tool_calls_keep_call.
  simpl in Hcalls. destruct tcs; [discriminate |]. now inversion Hcalls; subst.
Qed.

Lemma Forall2_in_left {A B} (R : A -> B -> Prop) (l : list A) (l' : list B) (x : A) :
  Forall2 R l l' -> In x l -> exists y, In y l' /\ R x y.
Proof.
  induction 1 as [|a b l l' Hab _ IH]; intros Hin; [contradiction |].
  destruct Hin as [-> | Hin].
  - exists b. split; [now left | exact Hab].
  - destruct (IH Hin) as (y & Hy & Hr). exists y. split; [now right | exact Hr].
Qed.

(** X20. Once the messages translate and an attempt succeeds, [chat]
    returns exactly when every non-empty arguments string of the answer's
    function-call blocks is accepted by the JSON decoder; an empty arguments
    string never makes it raise. *)
Theorem chat_returns_iff_decodable
        (w : World) (messages : list LLMMessage) (mp : ModelParameters)
        (tools : option (list Tool)) (reuse_history : bool) (s : Sys)
        (wire : list WireItem) (r : Response) :
  parse_messages messages = Return wire ->
  answered_by w mp tools (sent_input s reuse_history wire) r ->
  ((exists resp s', chat w messages mp tools reuse_history s = (Return resp, s'))
   <->
   (forall call_id name arguments id,
       In (FunctionCallBlock call_id name arguments id) (output r) ->
       arguments <> "" -> json_loads arguments <> None)).
Proof.
  intros Hparse (pre & k & post & Hsplit & Hpre & Hk).
  rewrite (chat_first_success w messages mp tools reuse_history s
             wire pre post k r Hparse Hsplit Hpre Hk).
  split.
  - intros (resp & s' & H) call_id name arguments id Hin Hne.
    destruct (decode_output (output r) "" []) as [[c t]|e] eqn:Hdec;
      [| discriminate].
    apply decode_output_returns in Hdec. destruct Hdec as [_ (new & _ & Hall)].
    assert (Hfc : In (FunctionCallBlock call_id name arguments id)
                     (function_calls (output r))).
    { unfold function_calls. apply filter_In. now split. }
    destruct (Forall2_in_left _ _ _ _ Hall Hfc) as (tc & _ & Htc).
    simpl in Htc. destruct Htc as (_ & _ & _ & Hargs).
    destruct arguments; [contradiction |]. simpl in Hargs. congruence.
  - intros Hok.
    destruct (decode_output_total (output r) Hok "" []) as (c & t & ->).
    now eexists; eexists.
Qed.

End SequenceFacts.

(* ================================================================== *)
(** ** The further properties on concrete calls *)
(* ================================================================== *)

(** An answer with a usage section: the counts are copied. *)
Lemma chat_response_metadata_witness :
  exists resp s',
    chat (Sample.always Cases.counted) [Sample.says "user" "hi"]
         (Sample.params "gpt-4o" 1) None true Sample.seeded = (Return resp, s') /\
    resp_model resp = "gpt-4o-2024-08-06" /\
    resp_usage resp <> None.
Proof.
  eassert (H : chat (Sample.always Cases.counted) [Sample.says "user" "hi"]
                    (Sample.params "gpt-4o" 1) None true Sample.seeded
               = (Return _, _)) by (vm_compute; reflexivity).
  destruct (chat_response_metadata _ _ _ _ _ _ _ _ H)
    as (wire & r & _ & _ & _ & _ & _ & _).
  eexists. eexists. split; [exact H |]. split; [reflexivity | discriminate].
Defined.

(** The seeded client has an empty recorder: one entry after the call. *)
Lemma chat_records_interaction_witness :
  exists resp s' entry,
    chat (Sample.always Sample.one_call) [Sample.says "user" "hi"]
         (Sample.params "gpt-4o" 1) None true Sample.seeded = (Return resp, s') /\
    trajectory_recorder (self s') = Some [entry] /\
    te_provider entry = "openai".
Proof.
  eassert (H : chat (Sample.always Sample.one_call) [Sample.says "user" "hi"]
                    (Sample.params "gpt-4o" 1) None true Sample.seeded
               = (Return _, _)) by (vm_compute; reflexivity).
  pose proof (chat_records_interaction _ _ _ _ _ _ _ _ H) as Hrec.
  eexists. eexists. eexists. split; [exact H |]. split; [exact Hrec | reflexivity].
Defined.

(** The provider is down: the error is raised, nothing is recorded. *)
Lemma chat_error_keeps_recorder_witness :
  exists e s',
    chat Sample.down [Sample.says "user" "hi"] (Sample.params "gpt-4o" 2)
         None true Sample.seeded = (Raise e, s') /\
    trajectory_recorder (self s') = Some [].
Proof.
  eassert (H : chat Sample.down [Sample.says "user" "hi"]
                    (Sample.params "gpt-4o" 2) None true Sample.seeded
               = (Raise _, _)) by (vm_compute; reflexivity).
  pose proof (chat_error_keeps_recorder _ _ _ _ _ _ _ _ H) as Hrec.
  eexists. eexists. split; [exact H | exact Hrec].
Defined.

(** A message with an unknown role: no request is made. *)
Lemma chat_invalid_messages_send_nothing_witness :
  chat (Sample.always Sample.one_call) [Sample.says "tool" "hi"]
       (Sample.params "gpt-4o" 3) None true Sample.seeded
  = (Raise (ValueError "Invalid message role: tool"), Sample.seeded).
Proof.
  exact (proj1 (chat_invalid_messages_send_nothing
                  (Sample.always Sample.one_call) [Sample.says "tool" "hi"]
                  (Sample.params "gpt-4o" 3) None true Sample.seeded
                  (ValueError "Invalid message role: tool") eq_refl)).
Defined.

(** [max_retries] is 0 and the provider would answer: the call raises. *)
Lemma chat_without_attempts_raises_witness :
  chat (Sample.always Sample.one_call) [Sample.says "user" "hi"]
       (Sample.params "gpt-4o" 0) None true Sample.seeded
  = (Raise (ValueError FAILED_PREFIX), Sample.seeded).
Proof.
  apply (chat_without_attempts_raises
           (Sample.always Sample.one_call) [Sample.says "user" "hi"]
           (Sample.params "gpt-4o" 0) None true Sample.seeded
           [EasyMessage "user" "hi"] eq_refl).
  simpl. lia.
Defined.

(** Two calls on the seeded client, the second one reusing the history. *)
Lemma chat_next_call_sees_previous_witness :
  exists resp1 s1 resp2 s2,
    chat (Sample.always Sample.one_call) [Sample.says "user" "hi"]
         (Sample.params "gpt-4o" 1) None true Sample.seeded = (Return resp1, s1) /\
    chat (Sample.always Sample.two_messages)
         [Sample.tool_output Sample.result_42_timeout]
         (Sample.params "gpt-4o" 1) None true s1 = (Return resp2, s2) /\
    List.length (message_history (self s2)) = 7.
Proof.
  eassert (H1 : chat (Sample.always Sample.one_call) [Sample.says "user" "hi"]
                     (Sample.params "gpt-4o" 1) None true Sample.seeded
                = (Return _, _)) by (vm_compute; reflexivity).
  match type of H1 with
  | _ = (_, ?s1) =>
      eassert (H2 : chat (Sample.always Sample.two_messages)
                         [Sample.tool_output Sample.result_42_timeout]
                         (Sample.params "gpt-4o" 1) None true s1
                    = (Return _, _)) by (vm_compute; reflexivity)
  end.
  destruct (chat_next_call_sees_previous _ _ _ _ _ _ _ _ _ _ _ _ _ _ H1 H2)
    as (wire1 & r1 & wire2 & r2 & new & _).
  eexists. eexists. eexists. eexists.
  split; [exact H1 |]. split; [exact H2 | reflexivity].
Defined.

(** Seeding replaces the stored system message by another one. *)
Lemma seeded_history_is_sent_witness :
  exists resp s',
    chat (Sample.always Sample.one_call) [Sample.says "user" "hi"]
         (Sample.params "gpt-4o" 1) None true
         (snd (set_chat_history [Sample.says "system" "be kind"] Sample.seeded))
    = (Return resp, s') /\
    List.length (message_history (self s')) = 4.
Proof.
  eassert (H : chat (Sample.always Sample.one_call) [Sample.says "user" "hi"]
                    (Sample.params "gpt-4o" 1) None true
                    (snd (set_chat_history [Sample.says "system" "be kind"]
                                           Sample.seeded))
               = (Return _, _)) by (vm_compute; reflexivity).
  destruct (seeded_history_is_sent
              _ [Sample.says "system" "be kind"] _ _ _ Sample.seeded _
              [EasyMessage "system" "be kind"] _ eq_refl H)
    as (wire & r & new & _).
  eexists. eexists. split; [exact H | reflexivity].
Defined.

(** The one function call of the answer comes back with its call id. *)
Lemma tool_calls_round_trip_witness :
  exists resp s' calls,
    chat (Sample.always Sample.one_call) [Sample.says "user" "hi"]
         (Sample.params "gpt-4o" 1) None true Sample.seeded = (Return resp, s') /\
    resp_tool_calls resp = Some calls /\
    map item_call (map parse_tool_call calls) = [Some ("call_1", "bash")].
Proof.
  eassert (H : chat (Sample.always Sample.one_call) [Sample.says "user" "hi"]
                    (Sample.params "gpt-4o" 1) None true Sample.seeded
               = (Return _, _)) by (vm_compute; reflexivity).
  destruct (tool_calls_round_trip _ _ _ _ _ _ _ _ H) as (wire & r & _ & _ & Hrt).
  eexists. eexists. eexists. split; [exact H |]. split; reflexivity.
Defined.

(** The answer's only arguments string is the empty object: [chat] returns. *)
Lemma chat_returns_iff_decodable_witness :
  exists resp s',
    chat (Sample.always Sample.one_call) [Sample.says "user" "hi"]
         (Sample.params "gpt-4o" 1) None true Sample.seeded = (Return resp, s').
Proof.
  apply (chat_returns_iff_decodable
           (Sample.always Sample.one_call) [Sample.says "user" "hi"]
           (Sample.params "gpt-4o" 1) None true Sample.seeded
           [EasyMessage "user" "hi"] Sample.one_call eq_refl).
  - exists [], 0, []. repeat split. constructor.
  - intros call_id name arguments id [Hin | [Hin | []]] Hne; [discriminate |].
    inversion Hin; subst. discriminate.
Defined.
